(** * Recipe search screen ([src/App.js]): the [findRecipes] pipeline

    A shallow embedding of the search routine of the screen component:
    the input check, the filter request, the cap of ten candidates, the
    parallel lookups, the reduction of each detail payload to a display
    record, and the state setters called on the way. *)

From Stdlib Require Import String Ascii.
From Stdlib Require Import List NArith ZArith Bool Lia.
From Stdlib Require Import Floats.SpecFloat.
Import ListNotations.

Set Implicit Arguments.
Set Warnings "-register-all".
Local Open Scope list_scope.

(** ** JavaScript strings

    A JavaScript string is a sequence of UTF-16 code units. *)

Module JsString.

Definition char16 := N.
Definition jsstring := list char16.

(** The code units of an ASCII literal of the source. *)
Fixpoint lit (s : string) : jsstring :=
  match s with
  | EmptyString => []
  | String a s' => N_of_ascii a :: lit s'
  end.

Fixpoint eqb (s t : jsstring) : bool :=
  match s, t with
  | [], [] => true
  | a :: s', b :: t' => N.eqb a b && eqb s' t'
  | _, _ => false
  end.

(** WhiteSpace and LineTerminator code units, the ones
    [String.prototype.trim] strips. *)
Definition is_space (c : char16) : bool :=
  ((9 <=? c) && (c <=? 13)            (* TAB LF VT FF CR *)
   || (c =? 32) || (c =? 160)          (* SPACE, NO-BREAK SPACE *)
   || (c =? 5760)                      (* U+1680 *)
   || ((8192 <=? c) && (c <=? 8202))   (* U+2000 .. U+200A *)
   || (c =? 8232) || (c =? 8233)       (* LINE / PARAGRAPH SEPARATOR *)
   || (c =? 8239) || (c =? 8287)       (* U+202F, U+205F *)
   || (c =? 12288) || (c =? 65279))%N. (* U+3000, U+FEFF *)

Fixpoint trimStart (s : jsstring) : jsstring :=
  match s with
  | [] => []
  | c :: s' => if is_space c then trimStart s' else s
  end.

Definition trimEnd (s : jsstring) : jsstring := rev (trimStart (rev s)).

(** [s.trim()] *)
Definition trim (s : jsstring) : jsstring := trimEnd (trimStart s).

Fixpoint startsWith (s p : jsstring) {struct p} : bool :=
  match p, s with
  | [], _ => true
  | b :: p', a :: s' => N.eqb a b && startsWith s' p'
  | _ :: _, [] => false
  end.

(** [s.endsWith(p)] *)
Definition endsWith (s p : jsstring) : bool :=
  (length p <=? length s)%nat && eqb (skipn (length s - length p) s) p.

(** The scan of [s.split(sep)] for a non-empty [sep]: [cur] is the
    segment being read (reversed), [skip] the code units of a matched
    separator still to pass. *)
Fixpoint split_scan (sep : jsstring) (skip : nat) (cur s : jsstring)
  : list jsstring :=
  match s with
  | [] => [rev cur]
  | c :: s' =>
      match skip with
      | S k => split_scan sep k cur s'
      | O =>
          if startsWith s sep
          then rev cur :: split_scan sep (length sep - 1) [] s'
          else split_scan sep 0 (c :: cur) s'
      end
  end.

(** [s.split(sep)], no limit. *)
Definition split (s sep : jsstring) : list jsstring :=
  match sep with
  | [] => map (fun c => [c]) s
  | _ :: _ => split_scan sep 0 [] s
  end.

(** [parts.join(sep)] on an array of strings. *)
Fixpoint join (parts : list jsstring) (sep : jsstring) : jsstring :=
  match parts with
  | [] => []
  | [p] => p
  | p :: rest => p ++ sep ++ join rest sep
  end.

End JsString.
Export JsString.

(** ** Arrays *)

(** The index clamp of [slice]: a negative index counts from the end. *)
Definition clamp_index (len i : Z) : Z :=
  if (i <? 0)%Z then Z.max (len + i) 0 else Z.min i len.

(** [xs.slice(start, end)], on arrays and on strings. *)
Definition js_slice {A : Type} (xs : list A) (start fin : Z) : list A :=
  let len := Z.of_nat (length xs) in
  let k := clamp_index len start in
  let final := clamp_index len fin in
  firstn (Z.to_nat (Z.max (final - k) 0)) (skipn (Z.to_nat k) xs).

(** ** Values *)

Inductive val : Type :=
| VUndef
| VNull
| VBool (b : bool)
| VNum (x : spec_float)
| VStr (s : jsstring)
| VArr (elems : list val)
| VObj (fields : list (jsstring * val)).

Inductive exn : Type := TypeError | URIError | NetworkError | SyntaxError.

(** The completion of an evaluation: a value, or a thrown exception. *)
Inductive res (A : Type) : Type :=
| Ok (a : A)
| Throw (e : exn).
Arguments Throw {A} e.

Definition res_bind {A B : Type} (r : res A) (f : A -> res B) : res B :=
  match r with
  | Ok a => f a
  | Throw e => Throw e
  end.

Definition is_ok {A : Type} (r : res A) : bool :=
  match r with Ok _ => true | Throw _ => false end.

Declare Scope res_scope.
Delimit Scope res_scope with res.
Notation "x <- r ;; k" := (res_bind r (fun x => k))
  (at level 61, r at next level, right associativity) : res_scope.

Fixpoint res_map {A B : Type} (f : A -> res B) (xs : list A) : res (list B) :=
  match xs with
  | [] => Ok []
  | x :: xs' =>
      (y <- f x ;; ys <- res_map f xs' ;; Ok (y :: ys))%res
  end.

(** ToBoolean *)
Definition truthy (v : val) : bool :=
  match v with
  | VUndef | VNull => false
  | VBool b => b
  | VNum x =>
      match x with
      | S754_zero _ | S754_nan => false
      | _ => true
      end
  | VStr s => negb (JsString.eqb s [])
  | VArr _ | VObj _ => true
  end.

(** [a || b] *)
Definition js_or (a b : val) : val := if truthy a then a else b.

Fixpoint own_property (fields : list (jsstring * val)) (name : jsstring)
  : option val :=
  match fields with
  | [] => None
  | (k, v) :: rest =>
      if JsString.eqb k name then Some v else own_property rest name
  end.

(** The value of [v.name] on a value that has properties, for a name
    that no built-in prototype defines (the keys of the API payloads):
    an own property of an object, [undefined] otherwise. *)
Definition property (v : val) (name : string) : val :=
  match v with
  | VObj fields =>
      match own_property fields (lit name) with
      | Some x => x
      | None => VUndef
      end
  | _ => VUndef
  end.

(** [v.name]: reading a property of [undefined] or [null] throws. *)
Definition get_field (v : val) (name : string) : res val :=
  match v with
  | VUndef | VNull => Throw TypeError
  | _ => Ok (property v name)
  end.

(** [v[0]] *)
Definition get_first (v : val) : res val :=
  match v with
  | VUndef | VNull => Throw TypeError
  | VArr elems => Ok (match elems with x :: _ => x | [] => VUndef end)
  | VStr s => Ok (match s with c :: _ => VStr [c] | [] => VUndef end)
  | VObj fields =>
      match own_property fields (lit "0") with
      | Some x => Ok x
      | None => Ok VUndef
      end
  | _ => Ok VUndef
  end.

(** [v.slice(0, 10)]: arrays and strings have the method; on any other
    value the property is missing or not callable. *)
Definition slice_0_10 (v : val) : res val :=
  match v with
  | VArr elems => Ok (VArr (js_slice elems 0 10))
  | VStr s => Ok (VStr (js_slice s 0 10))
  | _ => Throw TypeError
  end.

(** [v.split('.')]: only strings have the method. *)
Definition split_dot (v : val) : res (list jsstring) :=
  match v with
  | VStr s => Ok (split s (lit "."))
  | _ => Throw TypeError
  end.

(** ** The display record (lines 87-95) *)

Record DisplayRecipe : Type := {
  id : val;
  name : val;
  thumbnail : val;
  summary : jsstring;
  strCategory : val;
  strArea : val;
  strTags : val
}.

(** Lines 83-85, from the value of [meal.strInstructions]. *)
Definition summarize (instructions : val) : res jsstring :=
  (let summary := js_or instructions (VStr (lit "")) in
   parts <- split_dot summary ;;
   let summary := trim (join (js_slice parts 0 2) (lit ".")) in
   let summary :=
     if negb (JsString.eqb summary []) && negb (endsWith summary (lit "."))
     then summary ++ lit "."
     else summary in
   Ok summary)%res.

(** The callback of [details.map] (lines 80-96). *)
Definition reduce (d : val) : res DisplayRecipe :=
  (meals <- get_field d "meals" ;;
   meal <- get_first meals ;;
   instructions <- get_field meal "strInstructions" ;;
   summary <- summarize instructions ;;
   idMeal <- get_field meal "idMeal" ;;
   strMeal <- get_field meal "strMeal" ;;
   strMealThumb <- get_field meal "strMealThumb" ;;
   strCategory <- get_field meal "strCategory" ;;
   strArea <- get_field meal "strArea" ;;
   strTags <- get_field meal "strTags" ;;
   Ok {| id := idMeal;
         name := strMeal;
         thumbnail := strMealThumb;
         summary := summary;
         strCategory := strCategory;
         strArea := strArea;
         strTags := strTags |})%res.


(** ** Component state, and what an invocation does to the outside *)

Record AppState : Type := {
  ingredients : jsstring;
  loading : bool;
  recipes : list DisplayRecipe;
  error : option jsstring
}.

(** Line 20-23: the state of a freshly mounted component. *)
Definition initial_state : AppState :=
  {| ingredients := lit ""; loading := false; recipes := []; error := None |}.

(** The calls an invocation makes, in program order.  The value that
    [console.error] prints is not kept. *)
Inductive event : Type :=
| SetError (e : option jsstring)
| SetLoading (b : bool)
| SetRecipes (rs : list DisplayRecipe)
| Fetch (url : jsstring)
| ConsoleError.

(** State updates take effect in the order the setters are called. *)
Definition apply_event (st : AppState) (ev : event) : AppState :=
  match ev with
  | SetError e =>
      {| ingredients := ingredients st; loading := loading st;
         recipes := recipes st; error := e |}
  | SetLoading b =>
      {| ingredients := ingredients st; loading := b;
         recipes := recipes st; error := error st |}
  | SetRecipes rs =>
      {| ingredients := ingredients st; loading := loading st;
         recipes := rs; error := error st |}
  | Fetch _ | ConsoleError => st
  end.

Definition replay (st : AppState) (evs : list event) : AppState :=
  fold_left apply_event evs st.

(** The text input's [onChangeText={setIngredients}]. *)
Definition setIngredients (text : jsstring) (st : AppState) : AppState :=
  {| ingredients := text; loading := loading st;
     recipes := recipes st; error := error st |}.

(** A promise, by the way it settles: fulfilled with a value or rejected
    with a reason. *)
Definition promise (A : Type) : Type := res A.

(** [p.then(f)] *)
Definition then_ {A B : Type} (p : promise A) (f : A -> promise B)
  : promise B := res_bind p f.

(** An HTTP response, by what [r.json()] settles to. *)
Record response : Type := { json : promise val }.

(** [Promise.all(ps)]: the array of the values, in the order of [ps],
    when every promise fulfils; rejected when one rejects.  The reason
    kept is the one of the lowest index; it reaches [console.error] only. *)
Definition Promise_all {A : Type} (ps : list (promise A)) : promise (list A) :=
  res_map (fun p => p) ps.

(** Computations of the body of [findRecipes]: from the number of
    requests issued so far, the events made, the new number of requests,
    and the completion. *)
Definition M (A : Type) : Type := nat -> list event * nat * res A.

Definition ret {A : Type} (a : A) : M A := fun n => ([], n, Ok a).

Definition bind {A B : Type} (m : M A) (f : A -> M B) : M B :=
  fun n =>
    let '(t1, n1, r) := m n in
    match r with
    | Ok a => let '(t2, n2, r2) := f a n1 in (t1 ++ t2, n2, r2)
    | Throw e => (t1, n1, Throw e)
    end.

Definition lift {A : Type} (r : res A) : M A := fun n => ([], n, r).

(** [await p] *)
Definition await {A : Type} (p : promise A) : M A := lift p.

Definition emit (ev : event) : M unit := fun n => ([ev], n, Ok tt).

Declare Scope M_scope.
Delimit Scope M_scope with M.
Notation "x <- m ;; k" := (bind m (fun x => k))
  (at level 61, m at next level, right associativity) : M_scope.
Notation "m ;; k" := (bind m (fun _ => k))
  (at level 61, right associativity) : M_scope.

Fixpoint M_map {A B : Type} (f : A -> M B) (xs : list A) : M (list B) :=
  match xs with
  | [] => ret []
  | x :: xs' => (y <- f x ;; ys <- M_map f xs' ;; ret (y :: ys))%M
  end.

(** [v.map(f)]: only arrays have the method. *)
Definition array_map {B : Type} (v : val) (f : val -> M B) : M (list B) :=
  match v with
  | VArr elems => M_map f elems
  | _ => lift (Throw TypeError)
  end.

(** [try { body } catch (e) { handler } finally { finalizer }]; a
    [return] inside [body] is a normal completion of [body]. *)
Definition try_catch_finally (body : M unit) (handler : exn -> M unit)
    (finalizer : M unit) : M unit :=
  fun n =>
    let '(t1, n1, r1) := body n in
    let '(t2, n2, r2) :=
      match r1 with
      | Ok _ => ([], n1, r1)
      | Throw e => handler e n1
      end in
    let '(t3, n3, r3) := finalizer n2 in
    (t1 ++ t2 ++ t3, n3, match r3 with Ok _ => r2 | Throw e => Throw e end).

Definition empty_input_message : jsstring :=
  lit "Please enter at least one ingredient".
Definition no_recipes_message : jsstring :=
  lit "No recipes found for those ingredients. Try different words.".
Definition fetch_error_message : jsstring :=
  lit "An error occurred while fetching recipes. Check your network.".

(** ** [encodeURIComponent]

    Code units outside the unreserved set are replaced by the percent
    escapes of the UTF-8 octets of their code point; a surrogate without
    its pair throws [URIError]. *)

Definition is_unreserved (c : char16) : bool :=
  ((65 <=? c) && (c <=? 90) || (97 <=? c) && (c <=? 122)
   || (48 <=? c) && (c <=? 57)
   || (c =? 45) || (c =? 95) || (c =? 46) || (c =? 33) || (c =? 126)
   || (c =? 42) || (c =? 39) || (c =? 40) || (c =? 41))%N.

Definition hex_digit (d : N) : char16 :=
  (if d <? 10 then 48 + d else 55 + d)%N.

Definition percent (octet : N) : jsstring :=
  [37%N; hex_digit (octet / 16); hex_digit (octet mod 16)].

Definition utf8 (cp : N) : list N :=
  (if cp <? 128 then [cp]
   else if cp <? 2048 then [192 + cp / 64; 128 + cp mod 64]
   else if cp <? 65536 then
     [224 + cp / 4096; 128 + (cp / 64) mod 64; 128 + cp mod 64]
   else
     [240 + cp / 262144; 128 + (cp / 4096) mod 64;
      128 + (cp / 64) mod 64; 128 + cp mod 64])%N.

Definition is_lead (c : char16) : bool := ((55296 <=? c) && (c <=? 56319))%N.
Definition is_trail (c : char16) : bool := ((56320 <=? c) && (c <=? 57343))%N.

Definition escape (cp : N) : jsstring := flat_map percent (utf8 cp).

Fixpoint encodeURIComponent (s : jsstring) : res jsstring :=
  match s with
  | [] => Ok []
  | c :: s' =>
      if is_unreserved c then
        (rest <- encodeURIComponent s' ;; Ok (c :: rest))%res
      else if is_trail c then Throw URIError
      else if is_lead c then
        match s' with
        | d :: s'' =>
            if is_trail d then
              (rest <- encodeURIComponent s'' ;;
               Ok (escape ((c - 55296) * 1024 + (d - 56320) + 65536)%N
                     ++ rest))%res
            else Throw URIError
        | [] => Throw URIError
        end
      else
        (rest <- encodeURIComponent s' ;; Ok (escape c ++ rest))%res
  end.

Section Pipeline.

(** The runtime's conversion of a number to a string. *)
Variable number_to_string : spec_float -> jsstring.

(** The network: how the [k]-th request of an invocation, to [url],
    settles. *)
Variable net : nat -> jsstring -> promise response.

(** [fetch(url)] issues the request and returns its promise. *)
Definition fetch (url : jsstring) : M (promise response) :=
  fun n => ([Fetch url], S n, Ok (net n url)).

(** The string conversion of a template literal's substitution.  Payload
    objects hold no functions: one with an own [toString] key has no
    usable conversion method. *)
Fixpoint to_string (v : val) : res jsstring :=
  match v with
  | VUndef => Ok (lit "undefined")
  | VNull => Ok (lit "null")
  | VBool b => Ok (if b then lit "true" else lit "false")
  | VNum x => Ok (number_to_string x)
  | VStr s => Ok s
  | VArr elems =>
      (fix join_elems (l : list val) : res jsstring :=
         match l with
         | [] => Ok []
         | x :: l' =>
             (sx <- match x with
                    | VUndef | VNull => Ok []
                    | _ => to_string x
                    end ;;
              match l' with
              | [] => Ok sx
              | _ :: _ => rest <- join_elems l' ;; Ok (sx ++ lit "," ++ rest)
              end)%res
         end) elems
  | VObj fields =>
      match own_property fields (lit "toString") with
      | Some _ => Throw TypeError
      | None => Ok (lit "[object Object]")
      end
  end.

Definition filter_url (encoded : jsstring) : jsstring :=
  lit "https://www.themealdb.com/api/json/v1/1/filter.php?i=" ++ encoded.

(** Line 74: the URL built from a candidate [m]. *)
Definition lookup_url (m : val) : res jsstring :=
  (idMeal <- get_field m "idMeal" ;;
   s <- to_string idMeal ;;
   Ok (lit "https://www.themealdb.com/api/json/v1/1/lookup.php?i=" ++ s))%res.

(** Lines 73-75: the callback of [limited.map]. *)
Definition lookup (m : val) : M (promise val) :=
  (url <- lift (lookup_url m) ;;
   p <- fetch url ;;
   ret (then_ p json))%M.

(** Lines 56-98: the body of the [try] block. *)
Definition search (query : jsstring) : M unit :=
  (encoded <- lift (encodeURIComponent query) ;;
   let url := filter_url encoded in
   p <- fetch url ;;
   res <- await p ;;
   data <- await (json res) ;;
   meals <- lift (get_field data "meals") ;;
   if negb (truthy meals) then
     emit (SetRecipes []) ;;
     emit (SetError (Some no_recipes_message)) ;;
     emit (SetLoading false)
   else
     limited <- lift (slice_0_10 meals) ;;
     detailPromises <- array_map limited lookup ;;
     details <- await (Promise_all detailPromises) ;;
     mapped <- lift (res_map reduce details) ;;
     emit (SetRecipes mapped))%M.

(** Lines 44-105. *)
Definition findRecipes (ingredients : jsstring) : M unit :=
  (emit (SetError None) ;;
   let query := trim ingredients in
   if negb (truthy (VStr query)) then
     emit (SetError (Some empty_input_message))
   else
     emit (SetLoading true) ;;
     emit (SetRecipes []) ;;
     try_catch_finally
       (search query)
       (fun e => emit ConsoleError ;; emit (SetError (Some fetch_error_message)))
       (emit (SetLoading false)))%M.

(** The events of one invocation in state [st], and the state after it. *)
Definition trace (st : AppState) : list event :=
  fst (fst (findRecipes (ingredients st) 0)).

Definition invoke (st : AppState) : AppState := replay st (trace st).

(** The URLs that [limited.map] requests: candidate after candidate,
    up to the first whose URL cannot be built. *)
Fixpoint issued (ms : list val) : list jsstring :=
  match ms with
  | [] => []
  | m :: ms' =>
      match lookup_url m with
      | Ok url => url :: issued ms'
      | Throw _ => []
      end
  end.

(** The promises of the lookups to [urls], the first being request
    number [n]. *)
Fixpoint settle (n : nat) (urls : list jsstring) : list (promise val) :=
  match urls with
  | [] => []
  | url :: urls' => then_ (net n url) json :: settle (S n) urls'
  end.

(** A request fails: network error, or a body that is not JSON. *)
Definition rejects (p : promise response) : bool :=
  negb (is_ok (then_ p json)).

(** The paths through the [try] block for a query: the events made and
    the completion. *)
Inductive search_path (query : jsstring) : list event -> res unit -> Prop :=
| path_encode_throws e :
    encodeURIComponent query = Throw e ->
    search_path query [] (Throw e)
| path_filter_fails enc e :
    encodeURIComponent query = Ok enc ->
    then_ (net 0 (filter_url enc)) json = Throw e ->
    search_path query [Fetch (filter_url enc)] (Throw e)
| path_no_object enc data e :
    encodeURIComponent query = Ok enc ->
    then_ (net 0 (filter_url enc)) json = Ok data ->
    get_field data "meals" = Throw e ->
    search_path query [Fetch (filter_url enc)] (Throw e)
| path_empty enc data meals :
    encodeURIComponent query = Ok enc ->
    then_ (net 0 (filter_url enc)) json = Ok data ->
    get_field data "meals" = Ok meals ->
    truthy meals = false ->
    search_path query
      [Fetch (filter_url enc); SetRecipes [];
       SetError (Some no_recipes_message); SetLoading false]
      (Ok tt)
| path_no_array enc data meals :
    encodeURIComponent query = Ok enc ->
    then_ (net 0 (filter_url enc)) json = Ok data ->
    get_field data "meals" = Ok meals ->
    truthy meals = true ->
    (forall ms, meals <> VArr ms) ->
    search_path query [Fetch (filter_url enc)] (Throw TypeError)
| path_candidate_throws enc data ms e :
    encodeURIComponent query = Ok enc ->
    then_ (net 0 (filter_url enc)) json = Ok data ->
    get_field data "meals" = Ok (VArr ms) ->
    res_map lookup_url (firstn 10 ms) = Throw e ->
    search_path query
      (Fetch (filter_url enc) :: map Fetch (issued (firstn 10 ms)))
      (Throw e)
| path_lookup_fails enc data ms urls e :
    encodeURIComponent query = Ok enc ->
    then_ (net 0 (filter_url enc)) json = Ok data ->
    get_field data "meals" = Ok (VArr ms) ->
    res_map lookup_url (firstn 10 ms) = Ok urls ->
    Promise_all (settle 1 urls) = Throw e ->
    search_path query (Fetch (filter_url enc) :: map Fetch urls) (Throw e)
| path_reduce_throws enc data ms urls details e :
    encodeURIComponent query = Ok enc ->
    then_ (net 0 (filter_url enc)) json = Ok data ->
    get_field data "meals" = Ok (VArr ms) ->
    res_map lookup_url (firstn 10 ms) = Ok urls ->
    Promise_all (settle 1 urls) = Ok details ->
    res_map reduce details = Throw e ->
    search_path query (Fetch (filter_url enc) :: map Fetch urls) (Throw e)
| path_success enc data ms urls details mapped :
    encodeURIComponent query = Ok enc ->
    then_ (net 0 (filter_url enc)) json = Ok data ->
    get_field data "meals" = Ok (VArr ms) ->
    res_map lookup_url (firstn 10 ms) = Ok urls ->
    Promise_all (settle 1 urls) = Ok details ->
    res_map reduce details = Ok mapped ->
    search_path query
      (Fetch (filter_url enc) :: map Fetch urls ++ [SetRecipes mapped])
      (Ok tt).

End Pipeline.

(** The URLs of the requests in a run of events, in the order issued. *)
Fixpoint fetches (evs : list event) : list jsstring :=
  match evs with
  | [] => []
  | Fetch url :: evs' => url :: fetches evs'
  | _ :: evs' => fetches evs'
  end.

(** The states a component can be in: the mounted one, after typing in
    the input, and at any point of an invocation of [findRecipes] started
    in such a state (invocations do not overlap). *)
Inductive reachable (number_to_string : spec_float -> jsstring)
  : AppState -> Prop :=
| reach_mount : reachable number_to_string initial_state
| reach_type st text :
    reachable number_to_string st ->
    reachable number_to_string (setIngredients text st)
| reach_invoke st net pre post :
    reachable number_to_string st ->
    trace number_to_string net st = pre ++ post ->
    reachable number_to_string (replay st pre).

(** "the first [min(N, 10)] entries" of the [meals] array. *)
Definition first_candidates (ms : list val) : list val :=
  firstn (Nat.min (length ms) 10) ms.



(** ** The summary as the specification words it *)

Module Spec.

Definition dot : char16 := 46%N.

(** "split it on the [.] character into segments" *)
Fixpoint segments (text : jsstring) : list jsstring :=
  match text with
  | [] => [[]]
  | c :: text' =>
      if N.eqb c dot then [] :: segments text'
      else
        match segments text' with
        | seg :: segs => (c :: seg) :: segs
        | [] => [[c]]
        end
  end.

(** "re-join them with [.] as separator" *)
Fixpoint rejoin (segs : list jsstring) : jsstring :=
  match segs with
  | [] => []
  | [seg] => seg
  | seg :: segs' => seg ++ dot :: rejoin segs'
  end.

(** "trim surrounding whitespace" *)
Fixpoint strip_leading (s : jsstring) : jsstring :=
  match s with
  | [] => []
  | c :: s' => if is_space c then strip_leading s' else c :: s'
  end.

Fixpoint strip_trailing (s : jsstring) : jsstring :=
  match s with
  | [] => []
  | c :: s' =>
      match strip_trailing s' with
      | [] => if is_space c then [] else [c]
      | kept => c :: kept
      end
  end.

Definition ends_with_dot (s : jsstring) : bool :=
  match rev s with
  | c :: _ => N.eqb c dot
  | [] => false
  end.

(** The summary algorithm of section 4.4, from the instructions text. *)
Definition summary (text : jsstring) : jsstring :=
  let kept := firstn 2 (segments text) in
  let trimmed := strip_trailing (strip_leading (rejoin kept)) in
  match trimmed with
  | [] => []
  | _ :: _ => if ends_with_dot trimmed then trimmed else trimmed ++ [dot]
  end.

(** "the raw instructions text (empty string if absent)" of a detail
    record whose instructions, when present, are a string. *)
Definition instructions_text (meal : val) : option jsstring :=
  match get_field meal "strInstructions" with
  | Ok (VStr s) => Some s
  | Ok VUndef | Ok VNull => Some []
  | _ => None
  end.

End Spec.

(** [d.meals[0]] of a detail payload. *)
Definition first_meal (d : val) : res val :=
  (meals <- get_field d "meals" ;; get_first meals)%res.

(** The events of lines 45-53, and those of the [catch] block. *)
Definition searching_prefix : list event :=
  [SetError None; SetLoading true; SetRecipes []].

Definition catch_events (r : res unit) : list event :=
  match r with
  | Ok _ => []
  | Throw _ => [ConsoleError; SetError (Some fetch_error_message)]
  end.

(** ** Sample payloads, networks and states *)

Module Sample.

(** A stand-in for the number conversion: the samples hold no number. *)
Definition number_to_string (x : spec_float) : jsstring := lit "0".

Definition candidate (idMeal : string) : val :=
  VObj [(lit "idMeal", VStr (lit idMeal))].

Definition filter_payload (ms : list val) : val :=
  VObj [(lit "meals", VArr ms)].

(** The payload of a lookup whose meal has the given instructions and
    nothing else. *)
Definition detail_with_instructions (text : string) : val :=
  VObj [(lit "meals", VArr [VObj [(lit "strInstructions", VStr (lit text))]])].

Definition detail_payload (idMeal strMeal text : string) : val :=
  VObj [(lit "meals",
         VArr [VObj [(lit "idMeal", VStr (lit idMeal));
                     (lit "strMeal", VStr (lit strMeal));
                     (lit "strInstructions", VStr (lit text))]])].

(** The payload the lookup endpoint gives for an unknown id. *)
Definition null_detail : val := VObj [(lit "meals", VNull)].

Definition fulfilled (v : val) : promise response := Ok {| json := Ok v |}.

Definition two_meals : list val := [candidate "52772"; candidate "52773"].

Definition fifteen_meals : list val :=
  map (fun i => VObj [(lit "idMeal", VStr [(65 + N.of_nat i)%N])]) (seq 0 15).

(** Two matches, both lookups answered. *)
Definition net_two (k : nat) (url : jsstring) : promise response :=
  match k with
  | 0 => fulfilled (filter_payload two_meals)
  | 1 => fulfilled (detail_payload "52772" "Teriyaki Chicken"
           "Boil water. Add pasta. Stir occasionally. Serve hot.")
  | 2 => fulfilled (detail_payload "52773" "Honey Chicken" "Mix well")
  | _ => Throw NetworkError
  end.

(** Fifteen matches, every lookup answered. *)
Definition net_fifteen (k : nat) (url : jsstring) : promise response :=
  match k with
  | 0 => fulfilled (filter_payload fifteen_meals)
  | _ => fulfilled (detail_payload "1" "Stew" "Mix well")
  end.

(** Two matches, the second lookup rejected. *)
Definition net_second_lookup_fails (k : nat) (url : jsstring)
  : promise response :=
  match k with
  | 0 => fulfilled (filter_payload two_meals)
  | 1 => fulfilled (detail_payload "52772" "Teriyaki Chicken" "Mix well")
  | _ => Throw NetworkError
  end.

(** No match: the filter endpoint answers [{ meals: null }]. *)
Definition net_no_match (k : nat) (url : jsstring) : promise response :=
  fulfilled (VObj [(lit "meals", VNull)]).

(** One match, whose lookup is answered with [{ meals: null }]. *)
Definition net_null_detail (k : nat) (url : jsstring) : promise response :=
  match k with
  | 0 => fulfilled (filter_payload [candidate "52772"])
  | _ => fulfilled null_detail
  end.

Definition typed (text : string) (st : AppState) : AppState :=
  setIngredients (lit text) st.

Definition st_chicken : AppState := typed "chicken" initial_state.

Definition st_blank : AppState := typed "   " initial_state.

(** After a search with two results ... *)
Definition st_two_results : AppState :=
  invoke number_to_string net_two st_chicken.

(** ... the input is cleared and the search button pressed again. *)
Definition st_error_and_results : AppState :=
  invoke number_to_string net_two (typed "" st_two_results).

End Sample.

(** ** What the screen shows (lines 107-143, 176-183)

    Element trees, with the props that carry data; style, animation and
    handler props are left out. *)

Inductive element : Type :=
| Element (component : string) (props : list (string * val))
    (children : list element)
| Expr (v : val)
| Nothing.

(** Lines 107-143: the card of one display record. *)
Definition renderItem (item : DisplayRecipe) : element :=
  Element "TouchableOpacity" []
    [Element "View" []
       [(if truthy (thumbnail item)
         then Element "Image" [("source.uri"%string, thumbnail item)] []
         else Nothing);
        Element "View" []
          [Element "Text" [] [Expr (name item)];
           Element "View" []
             [Element "Text" []
                [Expr (js_or (strCategory item) (VStr (lit "Main Course")))];
              (if truthy (strArea item)
               then Element "Text" [] [Expr (strArea item)]
               else Nothing)];
           Element "Text" [] [Expr (VStr (summary item))]]]].

(** The state variable [error] as a value: [null] or a string. *)
Definition error_value (st : AppState) : val :=
  match error st with
  | Some message => VStr message
  | None => VNull
  end.

(** Line 183: [{error ? <Text>{error}</Text> : null}]. *)
Definition error_view (st : AppState) : element :=
  if truthy (error_value st)
  then Element "Text" [] [Expr (error_value st)]
  else Nothing.

(** Lines 176-181: [{loading && (...)}]. *)
Definition loading_view (st : AppState) : element :=
  if loading st
  then Element "View" []
         [Element "ActivityIndicator" [] [];
          Element "Text" [] [Expr (VStr (lit "Finding perfect recipes..."))]]
  else Nothing.

(** The values shown as text in a tree, in order. *)
Fixpoint texts (e : element) : list val :=
  match e with
  | Element _ _ children =>
      (fix texts_of (es : list element) : list val :=
         match es with
         | [] => []
         | e' :: es' => texts e' ++ texts_of es'
         end) children
  | Expr v => [v]
  | Nothing => []
  end.

(** ** When React commits the updates

    A setter call queues an update.  React commits the queued updates
    when the stretch of the handler that made them gives control back:
    here at an [await] (lines 59, 60 and 77).  The steps of an
    invocation are its calls, with the [await]s marked. *)

Inductive step : Type :=
| Call (ev : event)
| Await.

(** Computations that mark their [await]s. *)
Definition Y (A : Type) : Type := nat -> list step * nat * res A.

Definition Y_bind {A B : Type} (m : Y A) (f : A -> Y B) : Y B :=
  fun n =>
    let '(t1, n1, r) := m n in
    match r with
    | Ok a => let '(t2, n2, r2) := f a n1 in (t1 ++ t2, n2, r2)
    | Throw e => (t1, n1, Throw e)
    end.

(** A stretch without [await]. *)
Definition call {A : Type} (m : M A) : Y A :=
  fun n => let '(t, n1, r) := m n in (map Call t, n1, r).

(** [await p]: the function gives control back, and resumes with the
    value of [p] or throws its reason. *)
Definition await_ {A : Type} (p : promise A) : Y A :=
  fun n => ([Await], n, p).

Definition Y_try_catch_finally (body : Y unit) (handler : exn -> Y unit)
    (finalizer : Y unit) : Y unit :=
  fun n =>
    let '(t1, n1, r1) := body n in
    let '(t2, n2, r2) :=
      match r1 with
      | Ok _ => ([], n1, r1)
      | Throw e => handler e n1
      end in
    let '(t3, n3, r3) := finalizer n2 in
    (t1 ++ t2 ++ t3, n3, match r3 with Ok _ => r2 | Throw e => Throw e end).

Declare Scope Y_scope.
Delimit Scope Y_scope with Y.
Notation "x <- m ;; k" := (Y_bind m (fun x => k))
  (at level 61, m at next level, right associativity) : Y_scope.
Notation "m ;; k" := (Y_bind m (fun _ => k))
  (at level 61, right associativity) : Y_scope.

Section Steps.

Variable number_to_string : spec_float -> jsstring.
Variable net : nat -> jsstring -> promise response.

(** Lines 56-98, with the [await]s of lines 59, 60 and 77. *)
Definition search_steps (query : jsstring) : Y unit :=
  (encoded <- call (lift (encodeURIComponent query)) ;;
   let url := filter_url encoded in
   p <- call (fetch net url) ;;
   res <- await_ p ;;
   data <- await_ (json res) ;;
   meals <- call (lift (get_field data "meals")) ;;
   if negb (truthy meals) then
     call (emit (SetRecipes []) ;;
           emit (SetError (Some no_recipes_message)) ;;
           emit (SetLoading false))%M
   else
     limited <- call (lift (slice_0_10 meals)) ;;
     detailPromises <-
       call (array_map limited (lookup number_to_string net)) ;;
     details <- await_ (Promise_all detailPromises) ;;
     mapped <- call (lift (res_map reduce details)) ;;
     call (emit (SetRecipes mapped)))%Y.

(** Lines 44-105. *)
Definition findRecipes_steps (ingredients : jsstring) : Y unit :=
  (call (emit (SetError None)) ;;
   let query := trim ingredients in
   if negb (truthy (VStr query)) then
     call (emit (SetError (Some empty_input_message)))
   else
     call (emit (SetLoading true)) ;;
     call (emit (SetRecipes [])) ;;
     Y_try_catch_finally
       (search_steps query)
       (fun e => call (emit ConsoleError ;;
                       emit (SetError (Some fetch_error_message)))%M)
       (call (emit (SetLoading false))))%Y.

(** The steps of one invocation in state [st]. *)
Definition steps (st : AppState) : list step :=
  fst (fst (findRecipes_steps (ingredients st) 0)).

End Steps.

(** The calls among some steps. *)
Fixpoint calls (ss : list step) : list event :=
  match ss with
  | [] => []
  | Call ev :: ss' => ev :: calls ss'
  | Await :: ss' => calls ss'
  end.

(** The state React has committed once the steps [ss] are made, from
    the committed state [st] with the updates [pending]. *)
Fixpoint commit (st : AppState) (pending : list event) (ss : list step)
  : AppState :=
  match ss with
  | [] => st
  | Call ev :: ss' => commit st (pending ++ [ev]) ss'
  | Await :: ss' => commit (replay st pending) [] ss'
  end.

Definition committed (st : AppState) (ss : list step) : AppState :=
  commit st [] ss.

(** A step that changes no state: a request, an [await]. *)
Definition no_update (s : step) : bool :=
  match s with
  | Call (Fetch _) | Await => true
  | Call _ => false
  end.

(** The state of a search in progress. *)
Definition searching_state (st : AppState) : AppState :=
  {| ingredients := ingredients st; loading := true;
     recipes := []; error := None |}.

(** ** Notions used in the statements below *)

Definition starts_with_space (s : jsstring) : bool :=
  match s with
  | c :: _ => is_space c
  | [] => false
  end.

Definition ends_with_space (s : jsstring) : bool :=
  starts_with_space (rev s).

(** The number of ['.'] in a string. *)
Definition dots (s : jsstring) : nat := count_occ N.eq_dec s Spec.dot.

Definition is_surrogate (c : char16) : bool := is_lead c || is_trail c.

(** The text that line 84 trims: the first two segments, re-joined. *)
Definition summary_head (text : jsstring) : jsstring :=
  Spec.rejoin (firstn 2 (Spec.segments text)).

(** The three messages of the component. *)
Definition known_message (e : option jsstring) : Prop :=
  e = None \/ e = Some empty_input_message
  \/ e = Some no_recipes_message \/ e = Some fetch_error_message.

(** The id of a candidate that is an object with a string [idMeal]. *)
Definition string_id (m : val) : option jsstring :=
  match m with
  | VObj fields =>
      match own_property fields (lit "idMeal") with
      | Some (VStr s) => Some s
      | _ => None
      end
  | _ => None
  end.

Definition has_string_id (m : val) : bool :=
  match string_id m with Some _ => true | None => false end.

(** The lookup URL of such a candidate: the id, as it is. *)
Definition id_url (m : val) : jsstring :=
  lit "https://www.themealdb.com/api/json/v1/1/lookup.php?i="
  ++ match string_id m with Some s => s | None => [] end.

(** The state a search that threw ends in. *)
Definition failed_state (st : AppState) : AppState :=
  {| ingredients := ingredients st; loading := false;
     recipes := []; error := Some fetch_error_message |}.

(** ** Edge-case networks *)

Module Edge.

(** No connection: every request is rejected. *)
Definition net_down (k : nat) (url : jsstring) : promise response :=
  Throw NetworkError.

(** The filter endpoint answers with a page that is not JSON. *)
Definition net_not_json (k : nat) (url : jsstring) : promise response :=
  Ok {| json := Throw SyntaxError |}.

(** The filter endpoint answers [{ meals: "none" }]. *)
Definition net_string_meals (k : nat) (url : jsstring) : promise response :=
  Sample.fulfilled (VObj [(lit "meals", VStr (lit "none"))]).

(** Two matches, the second of them [null]. *)
Definition net_null_candidate (k : nat) (url : jsstring)
  : promise response :=
  match k with
  | 0 => Sample.fulfilled
           (Sample.filter_payload [Sample.candidate "52772"; VNull])
  | _ => Sample.fulfilled
           (Sample.detail_payload "52772" "Teriyaki Chicken" "Mix well")
  end.

(** A query holding a high surrogate without its low surrogate. *)
Definition st_lone_surrogate : AppState :=
  setIngredients [99%N; 55357%N; 104%N] initial_state.

(** A detail payload with a name and nothing else. *)
Definition bare_detail : val :=
  VObj [(lit "meals", VArr [VObj [(lit "strMeal", VStr (lit "Stew"))]])].

(** A search for "rice", started while the empty-input message and the
    two results of an earlier search are on the screen. *)
Definition st_rice : AppState :=
  Sample.typed "rice" Sample.st_error_and_results.

Definition run_rice : list step :=
  steps Sample.number_to_string Sample.net_two st_rice.

(** A search for "chicken" without a connection. *)
Definition run_down : list step :=
  steps Sample.number_to_string net_down Sample.st_chicken.

End Edge.

(** * Properties *)

(** ** Strings and arrays *)

Lemma eqb_spec (s t : jsstring) : JsString.eqb s t = true <-> s = t.
Proof.
  revert t; induction s as [|a s IH]; intros [|b t]; simpl; split;
    try congruence; try reflexivity.
  - rewrite andb_true_iff, N.eqb_eq, IH. intros [-> ->]; reflexivity.
  - intros H; injection H as -> ->.
    rewrite N.eqb_refl. simpl. apply IH. reflexivity.
Qed.

Lemma eqb_nil (s : jsstring) :
  JsString.eqb s [] = match s with [] => true | _ :: _ => false end.
Proof. destruct s; reflexivity. Qed.

Lemma js_slice_prefix {A : Type} (xs : list A) (n : nat) :
  js_slice xs 0 (Z.of_nat n) = firstn n xs.
Proof.
  unfold js_slice, clamp_index. simpl.
  replace (Z.min 0 (Z.of_nat (length xs))) with 0%Z by lia.
  destruct (Z.of_nat n <? 0)%Z eqn:Hn; [apply Z.ltb_lt in Hn; lia|].
  simpl. rewrite Z.sub_0_r.
  destruct (Nat.le_ge_cases n (length xs)) as [Hle|Hge].
  - f_equal. lia.
  - rewrite (firstn_all2 xs Hge).
    apply firstn_all2. lia.
Qed.

Lemma firstn_min_length {A : Type} (xs : list A) (n : nat) :
  firstn (Nat.min (length xs) n) xs = firstn n xs.
Proof.
  destruct (Nat.le_ge_cases n (length xs)) as [Hle|Hge].
  - f_equal. lia.
  - rewrite (firstn_all2 xs Hge). apply firstn_all2. lia.
Qed.

Lemma segments_cons (text : jsstring) :
  exists seg segs, Spec.segments text = seg :: segs.
Proof.
  induction text as [|c text [seg [segs IH]]]; simpl.
  - eauto.
  - destruct (N.eqb c Spec.dot); [eauto|]. rewrite IH. eauto.
Qed.

Lemma split_scan_segments (s cur : jsstring) :
  split_scan (lit ".") 0 cur s =
  match Spec.segments s with
  | seg :: segs => (rev cur ++ seg) :: segs
  | [] => [rev cur]
  end.
Proof.
  revert cur; induction s as [|c s IH]; intros cur.
  - simpl. rewrite app_nil_r. reflexivity.
  - cbn [split_scan Spec.segments].
    change (startsWith (c :: s) (lit ".")) with (N.eqb c Spec.dot && true).
    destruct (N.eqb c Spec.dot) eqn:Hc; cbn [andb].
    + rewrite app_nil_r. f_equal.
      change (length (lit ".") - 1) with 0.
      rewrite IH. destruct (segments_cons s) as [seg [segs ->]].
      reflexivity.
    + rewrite IH. destruct (segments_cons s) as [seg [segs ->]].
      simpl. rewrite <- app_assoc. reflexivity.
Qed.

Lemma split_dot_segments (s : jsstring) :
  split s (lit ".") = Spec.segments s.
Proof.
  change (split s (lit ".")) with (split_scan (lit ".") 0 [] s).
  rewrite split_scan_segments.
  destruct (segments_cons s) as [seg [segs ->]]. reflexivity.
Qed.

Lemma join_rejoin (parts : list jsstring) :
  join parts (lit ".") = Spec.rejoin parts.
Proof.
  induction parts as [|p [|q rest] IH]; try reflexivity.
  change (join (p :: q :: rest) (lit "."))
    with (p ++ lit "." ++ join (q :: rest) (lit ".")).
  rewrite IH. reflexivity.
Qed.

Lemma trimStart_strip (s : jsstring) : trimStart s = Spec.strip_leading s.
Proof.
  induction s as [|c s IH]; simpl; [reflexivity|].
  destruct (is_space c); [exact IH | reflexivity].
Qed.

Lemma trimStart_nil (s : jsstring) :
  trimStart s = [] <-> forallb is_space s = true.
Proof.
  induction s as [|c s IH]; simpl; [tauto|].
  destruct (is_space c); simpl; [exact IH|].
  split; congruence.
Qed.

Lemma trimStart_snoc (s : jsstring) (c : char16) :
  trimStart (s ++ [c]) =
  match trimStart s with
  | [] => if is_space c then [] else [c]
  | kept => kept ++ [c]
  end.
Proof.
  induction s as [|a s IH]; simpl; [reflexivity|].
  destruct (is_space a); [exact IH | reflexivity].
Qed.

Lemma trimEnd_strip (s : jsstring) : trimEnd s = Spec.strip_trailing s.
Proof.
  unfold trimEnd. induction s as [|c s IH]; [reflexivity|].
  cbn [rev Spec.strip_trailing]. rewrite trimStart_snoc, <- IH.
  destruct (trimStart (rev s)) as [|a kept] eqn:Hk.
  - simpl. destruct (is_space c); reflexivity.
  - rewrite rev_app_distr. cbn [rev app].
    destruct (rev kept ++ [a]) eqn:Hr; [|reflexivity].
    destruct (rev kept); discriminate.
Qed.

Lemma trim_strip (s : jsstring) :
  trim s = Spec.strip_trailing (Spec.strip_leading s).
Proof. unfold trim. rewrite trimEnd_strip, trimStart_strip. reflexivity. Qed.

Lemma trimEnd_nil (s : jsstring) :
  trimEnd s = [] <-> forallb is_space s = true.
Proof.
  unfold trimEnd. split.
  - intros H. apply (f_equal (@rev _)) in H. rewrite rev_involutive in H.
    simpl in H. apply trimStart_nil in H.
    rewrite forallb_forall in *. intros x Hx. apply H, in_rev.
    rewrite rev_involutive. exact Hx.
  - intros H. assert (Hr : forallb is_space (rev s) = true).
    { rewrite forallb_forall in *. intros x Hx. apply H, in_rev, Hx. }
    apply trimStart_nil in Hr. rewrite Hr. reflexivity.
Qed.

Lemma trimStart_blank (s : jsstring) :
  forallb is_space s = true -> trimStart s = [].
Proof. apply trimStart_nil. Qed.

(** [trim] leaves nothing exactly of the strings made of white space. *)
Lemma trim_nil (s : jsstring) : trim s = [] <-> forallb is_space s = true.
Proof.
  unfold trim. rewrite trimEnd_nil. split.
  - intros H. induction s as [|c s IH]; [reflexivity|].
    simpl in *. destruct (is_space c) eqn:Hc; simpl in *.
    + apply IH, H.
    + rewrite Hc in H. discriminate.
  - intros H. rewrite (trimStart_blank s H). reflexivity.
Qed.

Lemma endsWith_dot (s : jsstring) :
  endsWith s (lit ".") = Spec.ends_with_dot s.
Proof.
  unfold endsWith, Spec.ends_with_dot.
  destruct s as [|a s] using rev_ind; [reflexivity|].
  rewrite rev_app_distr, length_app. cbn [rev app length lit].
  replace (length s + 1 - 1) with (length s + 0) by lia.
  rewrite skipn_app, Nat.add_0_r, skipn_all.
  replace (length s - length s) with 0 by lia.
  cbn [skipn app JsString.eqb]. rewrite andb_true_r.
  change (N_of_ascii ".") with Spec.dot.
  destruct (length s); reflexivity.
Qed.

(** Lines 83-85 on a string compute the summary of section 4.4. *)
Lemma summarize_spec (s : jsstring) :
  summarize (js_or (VStr s) (VStr [])) = Ok (Spec.summary s)
  /\ summarize (VStr s) = Ok (Spec.summary s).
Proof.
  assert (H : summarize (VStr s) = Ok (Spec.summary s)).
  { unfold summarize, js_or, Spec.summary.
    assert (Hs : (if truthy (VStr s) then VStr s else VStr (lit ""))
                 = VStr s).
    { destruct s; reflexivity. }
    rewrite Hs. cbn [split_dot res_bind].
    rewrite split_dot_segments.
    change 2%Z with (Z.of_nat 2).
    rewrite (js_slice_prefix (Spec.segments s) 2).
    rewrite join_rejoin, trim_strip.
    set (t := Spec.strip_trailing _).
    rewrite eqb_nil, endsWith_dot.
    destruct t as [|c t']; [reflexivity|].
    cbn [negb andb]. destruct (Spec.ends_with_dot (c :: t')); reflexivity. }
  split; [|exact H].
  unfold js_or. destruct (truthy (VStr s)) eqn:Ht; [exact H|].
  destruct s; [exact H | discriminate].
Qed.

Lemma summarize_absent (v : val) :
  truthy v = false -> summarize v = Ok [].
Proof.
  intros Hv. unfold summarize, js_or. rewrite Hv. reflexivity.
Qed.

(** ** The reduction of a detail payload *)

Lemma get_field_ok (v : val) (k : string) :
  v <> VUndef -> v <> VNull -> get_field v k = Ok (property v k).
Proof. destruct v; simpl; congruence. Qed.

Lemma get_field_inv (v x : val) (k : string) :
  get_field v k = Ok x -> v <> VUndef /\ v <> VNull /\ x = property v k.
Proof.
  destruct v; simpl; intros H; try discriminate;
    injection H as <-; repeat split; discriminate.
Qed.

Lemma reduce_meal (d meal : val) (s : jsstring) :
  first_meal d = Ok meal ->
  meal <> VUndef -> meal <> VNull ->
  summarize (property meal "strInstructions") = Ok s ->
  reduce d =
  Ok {| id := property meal "idMeal";
        name := property meal "strMeal";
        thumbnail := property meal "strMealThumb";
        summary := s;
        strCategory := property meal "strCategory";
        strArea := property meal "strArea";
        strTags := property meal "strTags" |}.
Proof.
  unfold first_meal, reduce. intros Hm Hu Hn Hs.
  destruct (get_field d "meals") as [meals|e]; [|discriminate].
  cbn [res_bind] in *. rewrite Hm. cbn [res_bind].
  rewrite !(get_field_ok _ Hu Hn). cbn [res_bind].
  rewrite Hs. reflexivity.
Qed.

(** C1.  For a detail record whose instructions are a string or absent,
    the summary of the display record is the one the summary algorithm
    of the specification gives on the instructions text (empty when
    absent): split on ['.'], keep at most two segments, re-join with
    ['.'], trim, and close with a ['.'] when non-empty and not closed.
    The text "Boil water. Add pasta. Stir occasionally. Serve hot."
    gives "Boil water. Add pasta.", "Mix well" gives "Mix well.", and
    the empty text gives the empty summary. *)
Theorem summary_follows_spec (d meal : val) (text : jsstring) :
  first_meal d = Ok meal ->
  Spec.instructions_text meal = Some text ->
  exists r,
    reduce d = Ok r
    /\ summary r = Spec.summary text
    /\ (text = lit "Boil water. Add pasta. Stir occasionally. Serve hot." ->
        summary r = lit "Boil water. Add pasta.")
    /\ (text = lit "Mix well" -> summary r = lit "Mix well.")
    /\ (text = lit "" -> summary r = lit "").
Proof.
  intros Hm Ht. unfold Spec.instructions_text in Ht.
  destruct (get_field meal "strInstructions") as [instr|e] eqn:Hi;
    [|discriminate].
  apply get_field_inv in Hi. destruct Hi as [Hu [Hn ->]].
  assert (Hs : summarize (property meal "strInstructions")
               = Ok (Spec.summary text)).
  { destruct (property meal "strInstructions"); try discriminate.
    - injection Ht as <-. reflexivity.
    - injection Ht as <-. reflexivity.
    - injection Ht as <-. apply summarize_spec. }
  eexists. split; [apply (reduce_meal d Hm Hu Hn Hs)|].
  cbn [summary]. split; [reflexivity|].
  repeat split; intros ->; vm_compute; reflexivity.
Qed.

(** The first quoted text, in a detail payload. *)
Lemma summary_follows_spec_witness :
  exists r,
    reduce (Sample.detail_with_instructions
              "Boil water. Add pasta. Stir occasionally. Serve hot.") = Ok r
    /\ summary r = lit "Boil water. Add pasta.".
Proof.
  destruct (@summary_follows_spec
              (Sample.detail_with_instructions
                 "Boil water. Add pasta. Stir occasionally. Serve hot.")
              (VObj [(lit "strInstructions",
                      VStr (lit "Boil water. Add pasta. Stir occasionally. Serve hot."))])
              (lit "Boil water. Add pasta. Stir occasionally. Serve hot.")
              eq_refl eq_refl)
    as [r [Hr [_ [Hb _]]]].
  exists r. split; [exact Hr | exact (Hb eq_refl)].
Defined.

(** ** The events of an invocation *)

Lemma replay_app (st : AppState) (evs1 evs2 : list event) :
  replay st (evs1 ++ evs2) = replay (replay st evs1) evs2.
Proof. apply fold_left_app. Qed.

Lemma replay_fetches (st : AppState) (urls : list jsstring) :
  replay st (map Fetch urls) = st.
Proof. induction urls as [|u urls IH]; [reflexivity | exact IH]. Qed.

Lemma fetches_app (evs1 evs2 : list event) :
  fetches (evs1 ++ evs2) = fetches evs1 ++ fetches evs2.
Proof.
  induction evs1 as [|[] evs1 IH]; simpl; rewrite ?IH; reflexivity.
Qed.

Lemma fetches_map_Fetch (urls : list jsstring) :
  fetches (map Fetch urls) = urls.
Proof. induction urls as [|u urls IH]; simpl; rewrite ?IH; reflexivity. Qed.

(** Two evaluations of one expression completed the same way. *)
Ltac same_results :=
  repeat match goal with
  | H1 : ?x = Ok _, H2 : ?x = Ok _ |- _ =>
      rewrite H1 in H2; injection H2 as H2; try subst
  | H1 : ?x = Ok _, H2 : ?x = Throw _ |- _ =>
      rewrite H1 in H2; discriminate H2
  end.

Section Invocation.

Variable nts : spec_float -> jsstring.
Variable net : nat -> jsstring -> promise response.

Lemma res_map_issued (ms : list val) (urls : list jsstring) :
  res_map (lookup_url nts) ms = Ok urls -> issued nts ms = urls.
Proof.
  revert urls; induction ms as [|m ms IH]; simpl; intros urls H.
  - injection H as <-. reflexivity.
  - destruct (lookup_url nts m) as [u|e]; [|discriminate].
    cbn [res_bind] in H.
    destruct (res_map (lookup_url nts) ms) as [us|e]; [|discriminate].
    injection H as <-. rewrite (IH us eq_refl). reflexivity.
Qed.

(** [limited.map]: the requests go out in the order of the candidates,
    and the promises come back in that order. *)
Lemma M_map_lookup (ms : list val) (n : nat) :
  M_map (lookup nts net) ms n =
  (map Fetch (issued nts ms), n + length (issued nts ms),
   match res_map (lookup_url nts) ms with
   | Ok urls => Ok (settle net n urls)
   | Throw e => Throw e
   end).
Proof.
  revert n; induction ms as [|m ms IH]; intros n.
  - simpl. unfold ret. rewrite Nat.add_0_r. reflexivity.
  - cbn [M_map issued res_map]. unfold bind at 1. unfold lookup at 1.
    unfold bind at 1, lift.
    destruct (lookup_url nts m) as [u|e]; cbn [res_bind].
    + unfold bind at 1, fetch, ret at 1. cbn [app].
      unfold bind at 1. rewrite IH.
      destruct (res_map (lookup_url nts) ms) as [us|e]; cbn [res_bind].
      * unfold ret. cbn [length settle]. rewrite app_nil_r.
        rewrite Nat.add_succ_r. reflexivity.
      * cbn [length]. rewrite Nat.add_succ_r. reflexivity.
    + simpl. rewrite Nat.add_0_r. reflexivity.
Qed.

Lemma search_run (query : jsstring) (t : list event) (n : nat)
    (r : res unit) :
  search nts net query 0 = (t, n, r) -> search_path nts net query t r.
Proof.
  unfold search. unfold bind at 1, lift at 1.
  destruct (encodeURIComponent query) as [enc|e] eqn:Henc.
  2:{ intros E; injection E as <- <- <-.
      apply path_encode_throws; exact Henc. }
  unfold bind at 1, fetch at 1. unfold bind at 1, await at 1, lift at 1.
  destruct (net 0 (filter_url enc)) as [resp|e] eqn:Hnet.
  2:{ intros E; injection E as <- <- <-.
      apply path_filter_fails with (enc := enc);
        [exact Henc | rewrite Hnet; reflexivity]. }
  unfold bind at 1, await at 1, lift at 1.
  destruct (json resp) as [data|e] eqn:Hjson.
  2:{ intros E; injection E as <- <- <-.
      apply path_filter_fails with (enc := enc);
        [exact Henc | rewrite Hnet; exact Hjson]. }
  assert (Hdata : then_ (net 0 (filter_url enc)) json = Ok data)
    by (rewrite Hnet; exact Hjson).
  unfold bind at 1, lift at 1.
  destruct (get_field data "meals") as [meals|e] eqn:Hmeals.
  2:{ intros E; injection E as <- <- <-.
      apply path_no_object with (enc := enc) (data := data); assumption. }
  destruct (truthy meals) eqn:Htruthy; cbn [negb].
  2:{ intros E; injection E as <- <- <-.
      eapply path_empty; eassumption. }
  unfold bind at 1, lift at 1.
  destruct meals as [| |b|x|s|ms|fields]; cbn [slice_0_10];
    try discriminate Htruthy;
    try (intros E; injection E as <- <- <-;
         eapply path_no_array; try eassumption; discriminate).
  unfold bind at 1. cbn [array_map].
  change 10%Z with (Z.of_nat 10). rewrite js_slice_prefix.
  rewrite M_map_lookup.
  destruct (res_map (lookup_url nts) (firstn 10 ms)) as [urls|e] eqn:Hurls.
  2:{ intros E; injection E as <- <- <-. cbn [app].
      eapply path_candidate_throws; eassumption. }
  rewrite (res_map_issued _ Hurls).
  unfold bind at 1, await at 1, lift at 1.
  destruct (Promise_all (settle net 1 urls)) as [details|e] eqn:Hall.
  2:{ intros E; injection E as <- <- <-. cbn [app]. rewrite !app_nil_r.
      eapply path_lookup_fails; eassumption. }
  unfold bind at 1, lift at 1.
  destruct (res_map reduce details) as [mapped|e] eqn:Hred.
  2:{ intros E; injection E as <- <- <-. cbn [app]. rewrite !app_nil_r.
      eapply path_reduce_throws; eassumption. }
  intros E; injection E as <- <- <-. cbn [app emit].
  eapply path_success; eassumption.
Qed.

Lemma trim_truthy (s : jsstring) :
  negb (truthy (VStr (trim s))) = forallb is_space s.
Proof.
  cbn [truthy]. rewrite negb_involutive, eqb_nil.
  destruct (trim s) eqn:Ht.
  - symmetry. apply trim_nil. exact Ht.
  - destruct (forallb is_space s) eqn:Hb; [|reflexivity].
    apply trim_nil in Hb. congruence.
Qed.

(** A blank input: lines 45-49 and nothing else. *)
Lemma trace_blank (st : AppState) :
  forallb is_space (ingredients st) = true ->
  trace nts net st = [SetError None; SetError (Some empty_input_message)].
Proof.
  intros Hb. unfold trace, findRecipes.
  rewrite trim_truthy, Hb. reflexivity.
Qed.

(** Any other input: lines 45-53, a path through the [try] block, the
    [catch] block when it threw, and the [finally] block. *)
Lemma trace_searching (st : AppState) :
  forallb is_space (ingredients st) = false ->
  exists t r,
    search_path nts net (trim (ingredients st)) t r
    /\ trace nts net st =
       searching_prefix ++ t ++ catch_events r ++ [SetLoading false].
Proof.
  intros Hb. unfold trace, findRecipes.
  rewrite trim_truthy, Hb.
  destruct (search nts net (trim (ingredients st)) 0) as [[t n] r] eqn:Hrun.
  exists t, r. split; [apply (search_run _ Hrun)|].
  unfold bind, emit, try_catch_finally. rewrite Hrun.
  destruct r as [u|e]; reflexivity.
Qed.

Lemma res_map_nth {A B : Type} (f : A -> res B) (xs : list A)
    (ys : list B) (i : nat) (x : A) :
  res_map f xs = Ok ys ->
  nth_error xs i = Some x ->
  exists y, f x = Ok y /\ nth_error ys i = Some y.
Proof.
  revert ys i; induction xs as [|a xs IH]; intros ys i Hmap Hnth.
  - destruct i; discriminate.
  - cbn [res_map] in Hmap.
    destruct (f a) as [b|e] eqn:Hfa; [|discriminate].
    cbn [res_bind] in Hmap.
    destruct (res_map f xs) as [bs|e]; [|discriminate].
    injection Hmap as <-.
    destruct i as [|i]; simpl in *.
    + injection Hnth as <-. eauto.
    + apply (IH bs i eq_refl Hnth).
Qed.

Lemma res_map_length {A B : Type} (f : A -> res B) (xs : list A)
    (ys : list B) :
  res_map f xs = Ok ys -> length ys = length xs.
Proof.
  revert ys; induction xs as [|a xs IH]; intros ys Hmap.
  - injection Hmap as <-. reflexivity.
  - cbn [res_map] in Hmap.
    destruct (f a) as [b|e]; [|discriminate].
    cbn [res_bind] in Hmap.
    destruct (res_map f xs) as [bs|e]; [|discriminate].
    injection Hmap as <-. simpl. rewrite (IH bs eq_refl). reflexivity.
Qed.

Lemma settle_nth (urls : list jsstring) (n i : nat) (url : jsstring) :
  nth_error urls i = Some url ->
  nth_error (settle net n urls) i = Some (then_ (net (n + i) url) json).
Proof.
  revert n i; induction urls as [|u urls IH]; intros n i Hnth.
  - destruct i; discriminate.
  - destruct i as [|i]; simpl in *.
    + injection Hnth as <-. rewrite Nat.add_0_r. reflexivity.
    + rewrite (IH (S n) i Hnth). rewrite Nat.add_succ_r. reflexivity.
Qed.

Lemma settle_length (urls : list jsstring) (n : nat) :
  length (settle net n urls) = length urls.
Proof.
  revert n; induction urls as [|u urls IH]; intros n; simpl;
    rewrite ?IH; reflexivity.
Qed.

(** The state once lines 45-53 have run and only requests went out. *)
Lemma replay_searching (st : AppState) (urls : list jsstring) :
  replay st (searching_prefix ++ map Fetch urls) =
  {| ingredients := ingredients st; loading := true;
     recipes := []; error := None |}.
Proof. rewrite replay_app, replay_fetches. reflexivity. Qed.

Lemma replay_searching_then (st : AppState) (urls : list jsstring)
    (tail : list event) :
  replay st (searching_prefix ++ map Fetch urls ++ tail) =
  replay {| ingredients := ingredients st; loading := true;
            recipes := []; error := None |} tail.
Proof. rewrite app_assoc, replay_app, replay_searching. reflexivity. Qed.

(** Every path of the [try] block is a run of requests, then at most
    the setter calls of the empty or the success path. *)
Lemma search_path_shape (query : jsstring) (t : list event) (r : res unit) :
  search_path nts net query t r ->
  exists urls tail,
    t = map Fetch urls ++ tail
    /\ fetches t = urls
    /\ match r with
       | Throw _ => tail = []
       | Ok _ =>
           tail = [SetRecipes []; SetError (Some no_recipes_message);
                   SetLoading false]
           \/ exists mapped, tail = [SetRecipes mapped]
       end.
Proof.
  intros Hp; destruct Hp;
    try (exists (@nil jsstring), (@nil event); repeat split; fail);
    try (exists [filter_url enc], (@nil event); repeat split; fail).
  - exists [filter_url enc]. eexists. repeat split. left. reflexivity.
  - exists (filter_url enc :: issued nts (firstn 10 ms)), [].
    cbn [map fetches]. rewrite app_nil_r, fetches_map_Fetch.
    repeat split.
  - exists (filter_url enc :: urls), [].
    cbn [map fetches]. rewrite app_nil_r, fetches_map_Fetch.
    repeat split.
  - exists (filter_url enc :: urls), [].
    cbn [map fetches]. rewrite app_nil_r, fetches_map_Fetch.
    repeat split.
  - exists (filter_url enc :: urls), [SetRecipes mapped].
    cbn [map fetches app]. rewrite fetches_app, fetches_map_Fetch.
    cbn [fetches]. rewrite app_nil_r.
    repeat split. right. eauto.
Qed.

Lemma prefix_of_pair {A : Type} (a b : A) (pre post : list A) :
  [a; b] = pre ++ post -> pre = [] \/ pre = [a] \/ pre = [a; b].
Proof.
  destruct pre as [|x [|y [|z pre]]]; simpl; intros H.
  - left; reflexivity.
  - right; left. congruence.
  - right; right. injection H as <- <- _. reflexivity.
  - discriminate.
Qed.

(** C7.  When the raw input is empty or holds white space only, the
    invocation sets the message "Please enter at least one ingredient"
    and stops: it issues no request and never calls [setLoading], so
    [loading] keeps its value (false when no search is running) at every
    point of the invocation. *)
Theorem blank_input_rejected (st : AppState) :
  forallb is_space (ingredients st) = true ->
  error (invoke nts net st) = Some empty_input_message
  /\ error (invoke nts net st)
     = Some (lit "Please enter at least one ingredient")
  /\ fetches (trace nts net st) = []
  /\ (forall b, ~ In (SetLoading b) (trace nts net st))
  /\ (forall pre post,
        trace nts net st = pre ++ post ->
        loading (replay st pre) = loading st).
Proof.
  intros Hb. unfold invoke. rewrite (trace_blank st Hb).
  repeat split.
  - intros b [H|[H|[]]]; discriminate.
  - intros pre post H.
    destruct (prefix_of_pair _ _ H) as [->|[->| ->]]; reflexivity.
Qed.

(** C10.  When the raw input is empty or holds white space only, the
    invocation writes [error] and nothing else: [results] is the list it
    was before, at every point of the invocation and at its end, so the
    list of an earlier search stays beside the new message. *)
Theorem rejected_input_keeps_results (st : AppState) :
  forallb is_space (ingredients st) = true ->
  invoke nts net st =
    {| ingredients := ingredients st; loading := loading st;
       recipes := recipes st; error := Some empty_input_message |}
  /\ recipes (invoke nts net st) = recipes st
  /\ (forall pre post,
        trace nts net st = pre ++ post ->
        recipes (replay st pre) = recipes st).
Proof.
  intros Hb. unfold invoke. rewrite (trace_blank st Hb).
  repeat split.
  intros pre post H.
  destruct (prefix_of_pair _ _ H) as [->|[->| ->]]; reflexivity.
Qed.

(** C4.  When the filter request succeeds and its JSON object has no
    [meals] key, or has [meals: null], the invocation ends with empty
    [results], the message "No recipes found for those ingredients. Try
    different words." and [loading] false; the filter request is the
    only request, and the [catch] block does not run. *)
Theorem null_meals_ends_empty (st : AppState) (enc : jsstring)
    (fields : list (jsstring * val)) :
  forallb is_space (ingredients st) = false ->
  encodeURIComponent (trim (ingredients st)) = Ok enc ->
  then_ (net 0 (filter_url enc)) json = Ok (VObj fields) ->
  own_property fields (lit "meals") = None
  \/ own_property fields (lit "meals") = Some VNull ->
  trace nts net st =
    [SetError None; SetLoading true; SetRecipes [];
     Fetch (filter_url enc);
     SetRecipes []; SetError (Some no_recipes_message); SetLoading false;
     SetLoading false]
  /\ recipes (invoke nts net st) = []
  /\ error (invoke nts net st)
     = Some (lit "No recipes found for those ingredients. Try different words.")
  /\ loading (invoke nts net st) = false
  /\ fetches (trace nts net st) = [filter_url enc]
  /\ ~ In ConsoleError (trace nts net st).
Proof.
  intros Hb Henc Hdata Hmeals.
  assert (Hfalsy : exists meals,
             get_field (VObj fields) "meals" = Ok meals
             /\ truthy meals = false).
  { cbn [get_field property].
    destruct Hmeals as [-> | ->]; eexists; split; reflexivity. }
  destruct Hfalsy as [meals [Hget Hfalsy]].
  assert (Ht : trace nts net st =
    [SetError None; SetLoading true; SetRecipes [];
     Fetch (filter_url enc);
     SetRecipes []; SetError (Some no_recipes_message); SetLoading false;
     SetLoading false]).
  { destruct (trace_searching st Hb) as [t [r [Hp ->]]].
    destruct Hp; same_results; try discriminate; try congruence.
    reflexivity. }
  unfold invoke. rewrite Ht. repeat split.
  intros [H|[H|[H|[H|[H|[H|[H|[H|[]]]]]]]]]; discriminate.
Qed.

Lemma split_at_fetch (urls : list jsstring) (tail pre post : list event)
    (url : jsstring) :
  fetches tail = [] ->
  map Fetch urls ++ tail = pre ++ Fetch url :: post ->
  exists us, pre = map Fetch us.
Proof.
  intros Htail. revert pre; induction urls as [|u urls IH]; intros pre H.
  - simpl in H. rewrite H, fetches_app in Htail. simpl in Htail.
    destruct (fetches pre); discriminate.
  - destruct pre as [|ev pre]; [exists []; reflexivity|].
    simpl in H. injection H as <- H.
    destruct (IH pre H) as [us ->]. exists (u :: us). reflexivity.
Qed.

(** The setter calls made before a request, applied in the order of the
    calls, clear [error] and [results] and set [loading]. *)
Lemma clearing_calls_precede_fetch (st : AppState) (pre post : list event)
    (url : jsstring) :
  trace nts net st = pre ++ Fetch url :: post ->
  error (replay st pre) = None
  /\ recipes (replay st pre) = []
  /\ loading (replay st pre) = true.
Proof.
  intros H.
  destruct (forallb is_space (ingredients st)) eqn:Hb.
  - rewrite (trace_blank st Hb) in H.
    apply (f_equal fetches) in H. rewrite fetches_app in H. simpl in H.
    destruct (fetches pre); discriminate.
  - destruct (trace_searching st Hb) as [t [r [Hp Ht]]].
    destruct (search_path_shape Hp) as [urls [tail [-> [_ Htail]]]].
    rewrite Ht in H. clear Ht.
    destruct pre as [|e1 [|e2 [|e3 pre]]]; try discriminate H.
    injection H as <- <- <- H.
    rewrite <- app_assoc in H.
    apply split_at_fetch in H.
    + destruct H as [us ->].
      change (SetError None :: SetLoading true :: SetRecipes [] :: map Fetch us)
        with (searching_prefix ++ map Fetch us).
      rewrite (replay_searching st us). repeat split.
    + rewrite !fetches_app.
      destruct r as [u|e].
      * destruct Htail as [-> | [mapped ->]]; reflexivity.
      * rewrite Htail. reflexivity.
Qed.

Lemma fetches_trace_searching (t : list event) (r : res unit) :
  fetches (searching_prefix ++ t ++ catch_events r ++ [SetLoading false])
  = fetches t.
Proof.
  rewrite !fetches_app. destruct r; simpl; apply app_nil_r.
Qed.

(** A run whose [try] block threw ends in the failed state, and never
    called [setRecipes] with anything but the empty list. *)
Lemma failed_run (st : AppState) (t : list event) (e : exn) :
  search_path nts net (trim (ingredients st)) t (Throw e) ->
  trace nts net st =
    searching_prefix ++ t ++ catch_events (Throw e) ++ [SetLoading false] ->
  invoke nts net st =
    {| ingredients := ingredients st; loading := false;
       recipes := []; error := Some fetch_error_message |}
  /\ (forall rs, In (SetRecipes rs) (trace nts net st) -> rs = []).
Proof.
  intros Hp Ht. unfold invoke. rewrite Ht.
  destruct (search_path_shape Hp) as [urls [tail [-> [_ ->]]]].
  rewrite app_nil_r. split.
  - rewrite app_assoc, replay_app, replay_searching. reflexivity.
  - intros rs Hin. apply in_app_or in Hin. destruct Hin as [Hin|Hin].
    + destruct Hin as [H|[H|[H|[]]]]; congruence.
    + apply in_app_or in Hin. destruct Hin as [Hin|Hin].
      * apply in_map_iff in Hin. destruct Hin as [u [H _]]. discriminate.
      * destruct Hin as [H|[H|[H|[]]]]; discriminate.
Qed.

(** C3.  When one of the lookup requests of a search fails (its
    [fetch] rejects, or its body is not JSON), the search ends in the
    failed state: [error] is the fetch-error message, [results] is
    empty, [loading] is false, and [setRecipes] was never called with a
    non-empty list, so no partial list was shown. *)
Theorem lookup_failure_fails_search (st : AppState) (k : nat)
    (url : jsstring) :
  1 <= k ->
  nth_error (fetches (trace nts net st)) k = Some url ->
  rejects (net k url) = true ->
  error (invoke nts net st)
  = Some (lit "An error occurred while fetching recipes. Check your network.")
  /\ recipes (invoke nts net st) = []
  /\ loading (invoke nts net st) = false
  /\ (forall rs, In (SetRecipes rs) (trace nts net st) -> rs = []).
Proof.
  intros Hk Hnth Hrej.
  destruct (forallb is_space (ingredients st)) eqn:Hb.
  { rewrite (trace_blank st Hb) in Hnth. destruct k; discriminate. }
  destruct (trace_searching st Hb) as [t [r [Hp Ht]]].
  rewrite Ht, fetches_trace_searching in Hnth.
  assert (Hthrow : exists e, r = Throw e).
  { destruct Hp; eauto; exfalso.
    - destruct k as [|[|k]]; [lia | discriminate | discriminate].
    - cbn [fetches] in Hnth. rewrite fetches_app, fetches_map_Fetch in Hnth.
      cbn [fetches] in Hnth. rewrite app_nil_r in Hnth.
      destruct k as [|i]; [lia|]. cbn [nth_error] in Hnth.
      pose proof (settle_nth urls 1 i Hnth) as Hp.
      match goal with
      | Hall : Promise_all _ = Ok _ |- _ =>
          destruct (res_map_nth _ _ _ Hall Hp) as [d [Hd _]]
      end.
      unfold rejects in Hrej. cbn [Nat.add] in Hd. rewrite Hd in Hrej.
      discriminate. }
  destruct Hthrow as [e ->].
  destruct (failed_run st Hp Ht) as [Hinv Hrs].
  rewrite Hinv. repeat split. exact Hrs.
Qed.

(** C9.  When a search ends without an error message, [results] holds
    one display record per candidate, in the order of the candidates:
    the [i]-th record is the reduction of the payload that the
    [i]-th lookup, the one for the [i]-th of the first ten entries of
    [meals], returned. *)
Theorem results_in_candidate_order (st : AppState) :
  error (invoke nts net st) = None ->
  exists enc data ms,
    encodeURIComponent (trim (ingredients st)) = Ok enc
    /\ then_ (net 0 (filter_url enc)) json = Ok data
    /\ get_field data "meals" = Ok (VArr ms)
    /\ length (recipes (invoke nts net st)) = Nat.min (length ms) 10
    /\ forall i m,
         i < 10 ->
         nth_error ms i = Some m ->
         exists url d r,
           lookup_url nts m = Ok url
           /\ nth_error (fetches (trace nts net st)) (S i) = Some url
           /\ then_ (net (S i) url) json = Ok d
           /\ reduce d = Ok r
           /\ nth_error (recipes (invoke nts net st)) i = Some r.
Proof.
  intros Herr.
  destruct (forallb is_space (ingredients st)) eqn:Hb.
  { unfold invoke in Herr. rewrite (trace_blank st Hb) in Herr.
    discriminate. }
  destruct (trace_searching st Hb) as [t [r [Hp Ht]]].
  destruct r as [u|e].
  2:{ destruct (failed_run st Hp Ht) as [Hinv _].
      rewrite Hinv in Herr. discriminate. }
  unfold invoke in *. rewrite Ht in *. rewrite fetches_trace_searching.
  inversion Hp as [ | | | enc data meals Henc Hdata Hmeals Hfalsy
                   | | | |
                   | enc data ms urls details mapped
                       Henc Hdata Hmeals Hurls Hall Hred ]; subst.
  { discriminate Herr. }
  exists enc, data, ms. repeat split; try assumption.
  - change (Fetch (filter_url enc) :: map Fetch urls ++ [SetRecipes mapped])
      with (map Fetch (filter_url enc :: urls) ++ [SetRecipes mapped]).
    rewrite <- app_assoc, replay_searching_then.
    cbn [catch_events replay fold_left apply_event recipes app].
    rewrite (res_map_length _ _ Hred).
    unfold Promise_all in Hall. rewrite (res_map_length _ _ Hall).
    rewrite settle_length, (res_map_length _ _ Hurls), length_firstn.
    apply Nat.min_comm.
  - intros i m Hi Hm.
    assert (Hm' : nth_error (firstn 10 ms) i = Some m).
    { rewrite nth_error_firstn.
      destruct (Nat.ltb_spec i 10); [exact Hm | lia]. }
    destruct (res_map_nth _ _ _ Hurls Hm') as [url [Hurl Hnu]].
    pose proof (settle_nth urls 1 i Hnu) as Hs.
    destruct (res_map_nth _ _ _ Hall Hs) as [d [Hd Hnd]].
    destruct (res_map_nth _ _ _ Hred Hnd) as [rcp [Hr Hnr]].
    exists url, d, rcp. repeat split; try assumption.
    + cbn [fetches]. rewrite fetches_app, fetches_map_Fetch.
      cbn [fetches nth_error]. rewrite app_nil_r. exact Hnu.
    + change (Fetch (filter_url enc) :: map Fetch urls ++ [SetRecipes mapped])
        with (map Fetch (filter_url enc :: urls) ++ [SetRecipes mapped]).
      rewrite <- app_assoc, replay_searching_then. exact Hnr.
Qed.

Lemma slice_first_candidates (ms : list val) :
  slice_0_10 (VArr ms) = Ok (VArr (first_candidates ms)).
Proof.
  unfold slice_0_10, first_candidates.
  change 10%Z with (Z.of_nat 10).
  rewrite js_slice_prefix, firstn_min_length. reflexivity.
Qed.

Lemma first_candidates_length (ms : list val) :
  length (first_candidates ms) = Nat.min (length ms) 10.
Proof. unfold first_candidates. rewrite length_firstn. lia. Qed.

(** C2.  When the filter response holds a [meals] array of length [N],
    the array handed to the lookup stage is the first [min N 10] entries
    of [meals], in their order; the lookups requested are the ones of
    these candidates, in that order, one each (as far as their URLs can
    be built), and no other. *)
Theorem detail_stage_gets_first_ten (st : AppState) (enc : jsstring)
    (data : val) (ms : list val) :
  forallb is_space (ingredients st) = false ->
  encodeURIComponent (trim (ingredients st)) = Ok enc ->
  then_ (net 0 (filter_url enc)) json = Ok data ->
  get_field data "meals" = Ok (VArr ms) ->
  slice_0_10 (VArr ms) = Ok (VArr (first_candidates ms))
  /\ length (first_candidates ms) = Nat.min (length ms) 10
  /\ fetches (trace nts net st)
     = filter_url enc :: issued nts (first_candidates ms)
  /\ (forall urls,
        res_map (lookup_url nts) (first_candidates ms) = Ok urls ->
        fetches (trace nts net st) = filter_url enc :: urls
        /\ length urls = Nat.min (length ms) 10
        /\ forall i m,
             nth_error (first_candidates ms) i = Some m ->
             exists url,
               lookup_url nts m = Ok url /\ nth_error urls i = Some url).
Proof.
  intros Hb Henc Hdata Hmeals.
  assert (Hf : fetches (trace nts net st)
               = filter_url enc :: issued nts (first_candidates ms)).
  { destruct (trace_searching st Hb) as [t [r [Hp ->]]].
    rewrite fetches_trace_searching.
    unfold first_candidates. rewrite firstn_min_length.
    destruct Hp; same_results; try discriminate;
      try match goal with
          | Hno : forall l, _ <> VArr l |- _ =>
              exfalso; eapply Hno; reflexivity
          end;
      cbn [fetches]; rewrite ?fetches_app, ?fetches_map_Fetch;
      cbn [fetches]; rewrite ?app_nil_r;
      try (erewrite res_map_issued by eassumption); reflexivity. }
  split; [apply slice_first_candidates|].
  split; [apply first_candidates_length|].
  split; [exact Hf|].
  intros urls Hurls. rewrite Hf, (res_map_issued _ Hurls).
  split; [reflexivity|].
  split; [rewrite (res_map_length _ _ Hurls); apply first_candidates_length|].
  intros i m Hm. apply (res_map_nth _ _ _ Hurls Hm).
Qed.





End Invocation.

(** ** The reduction step on unusable payloads, and the state invariant *)

(** The reduction completes on no other payload than the ones of the
    theorem below. *)
Lemma reduce_ok_only_on_valid_detail (d : val) (r : DisplayRecipe) :
  reduce d = Ok r ->
  exists meal,
    first_meal d = Ok meal
    /\ meal <> VUndef /\ meal <> VNull
    /\ (truthy (property meal "strInstructions") = false
        \/ exists s, property meal "strInstructions" = VStr s).
Proof.
  unfold reduce, first_meal. intros H.
  destruct (get_field d "meals") as [meals|e]; [|discriminate].
  cbn [res_bind] in *.
  destruct (get_first meals) as [meal|e]; [|discriminate].
  cbn [res_bind] in *.
  destruct (get_field meal "strInstructions") as [instr|e] eqn:Hi;
    [|discriminate].
  apply get_field_inv in Hi. destruct Hi as [Hu [Hn ->]].
  cbn [res_bind] in H.
  exists meal. repeat split; try assumption.
  destruct (truthy (property meal "strInstructions")) eqn:Ht;
    [|left; reflexivity].
  right. unfold summarize, js_or in H. rewrite Ht in H.
  destruct (property meal "strInstructions"); try discriminate H.
  eauto.
Qed.

(** C6 (amended).  For a detail payload whose first [meals] entry is
    neither [undefined] nor [null], and whose instructions are a string
    or falsy (absent in particular), the reduction produces a display
    record: id, name, thumbnail, category, area and tags are passed
    through, a missing one as [undefined], and falsy instructions give
    the empty summary. *)
Theorem reduce_total_on_valid_detail (d meal : val) :
  first_meal d = Ok meal ->
  meal <> VUndef -> meal <> VNull ->
  truthy (property meal "strInstructions") = false
  \/ (exists s, property meal "strInstructions" = VStr s) ->
  exists s,
    reduce d =
      Ok {| id := property meal "idMeal";
            name := property meal "strMeal";
            thumbnail := property meal "strMealThumb";
            summary := s;
            strCategory := property meal "strCategory";
            strArea := property meal "strArea";
            strTags := property meal "strTags" |}
    /\ (truthy (property meal "strInstructions") = false -> s = []).
Proof.
  intros Hm Hu Hn [Hfalsy | [text Htext]].
  - exists []. split; [|reflexivity].
    apply (reduce_meal d Hm Hu Hn). apply summarize_absent, Hfalsy.
  - exists (Spec.summary text). split.
    + apply (reduce_meal d Hm Hu Hn). rewrite Htext. apply summarize_spec.
    + intros Hfalsy. rewrite Htext in Hfalsy. destruct text; [|discriminate].
      reflexivity.
Qed.


(** ** The model at sample inputs *)

Import Sample.

Example split_keeps_empty_segments :
  split (lit "a..b.") (lit ".") = [lit "a"; lit ""; lit "b"; lit ""].
Proof. reflexivity. Qed.

Example split_of_empty : split (lit "") (lit ".") = [lit ""].
Proof. reflexivity. Qed.

Example slice_from_the_end : js_slice [1; 2; 3; 4] (-2) 10 = [3; 4].
Proof. reflexivity. Qed.

Example trim_example : trim (lit "  Mix well. ") = lit "Mix well.".
Proof. reflexivity. Qed.

Example summary_of_leading_dot :
  summarize (VStr (lit "  . a.b ")) = Ok (lit ". a.").
Proof. reflexivity. Qed.

Example summary_of_number : summarize (VNum (S754_finite false 5 0))
                            = Throw TypeError.
Proof. reflexivity. Qed.

Example encode_query :
  encodeURIComponent (lit "chicken breast,rice")
  = Ok (lit "chicken%20breast%2Crice").
Proof. reflexivity. Qed.

Example encode_lone_surrogate :
  encodeURIComponent [55357%N; 65%N] = Throw URIError.
Proof. reflexivity. Qed.

Example lookup_url_of_candidate :
  lookup_url number_to_string (candidate "52772")
  = Ok (lit "https://www.themealdb.com/api/json/v1/1/lookup.php?i=52772").
Proof. reflexivity. Qed.

Example lookup_url_of_null :
  lookup_url number_to_string VNull = Throw TypeError.
Proof. reflexivity. Qed.

Example trace_no_match :
  trace number_to_string net_no_match st_chicken =
  [SetError None; SetLoading true; SetRecipes [];
   Fetch (lit "https://www.themealdb.com/api/json/v1/1/filter.php?i=chicken");
   SetRecipes []; SetError (Some no_recipes_message); SetLoading false;
   SetLoading false].
Proof. reflexivity. Qed.

(** The scenario of section 8: fifteen matches, ten lookups, ten
    display records, [loading] false, no error. *)
Example scenario_fifteen_matches :
  length (fetches (trace number_to_string net_fifteen st_chicken)) = 11
  /\ length (recipes (invoke number_to_string net_fifteen st_chicken)) = 10
  /\ loading (invoke number_to_string net_fifteen st_chicken) = false
  /\ error (invoke number_to_string net_fifteen st_chicken) = None.
Proof. repeat split. Qed.

(** The scenario of section 8: a blank query changes nothing but the
    message. *)
Example scenario_blank_query :
  invoke number_to_string net_two st_blank =
  {| ingredients := lit "   "; loading := false; recipes := [];
     error := Some empty_input_message |}.
Proof. reflexivity. Qed.

(** An empty [meals] array is truthy: the search succeeds with no
    result and no message. *)
Example empty_array_is_success :
  invoke number_to_string (fun _ _ => fulfilled (filter_payload []))
    st_chicken =
  {| ingredients := lit "chicken"; loading := false; recipes := [];
     error := None |}.
Proof. reflexivity. Qed.

(** ** The properties at the samples *)

(** Fifteen matches: the lookups are those of the first ten. *)
Lemma detail_stage_gets_first_ten_witness :
  length fifteen_meals = 15
  /\ length (first_candidates fifteen_meals) = 10
  /\ fetches (trace number_to_string net_fifteen st_chicken)
     = filter_url (lit "chicken")
       :: issued number_to_string (firstn 10 fifteen_meals).
Proof.
  destruct (@detail_stage_gets_first_ten number_to_string net_fifteen
              st_chicken (lit "chicken") (filter_payload fifteen_meals)
              fifteen_meals eq_refl eq_refl eq_refl eq_refl)
    as [_ [Hlen [Hfetches _]]].
  split; [reflexivity|]. split; [exact Hlen | exact Hfetches].
Defined.

(** Two matches, the second lookup rejected: the first result is not
    shown. *)
Lemma lookup_failure_fails_search_witness :
  rejects (net_second_lookup_fails 2
             (lit "https://www.themealdb.com/api/json/v1/1/lookup.php?i=52773"))
  = true
  /\ error (invoke number_to_string net_second_lookup_fails st_chicken)
     = Some fetch_error_message
  /\ recipes (invoke number_to_string net_second_lookup_fails st_chicken) = [].
Proof.
  destruct (@lookup_failure_fails_search number_to_string
              net_second_lookup_fails st_chicken 2
              (lit "https://www.themealdb.com/api/json/v1/1/lookup.php?i=52773")
              (le_S 1 1 (le_n 1)) eq_refl eq_refl)
    as [Herr [Hrec _]].
  split; [reflexivity|]. split; [exact Herr | exact Hrec].
Defined.

(** The filter endpoint answers [{ meals: null }]. *)
Lemma null_meals_ends_empty_witness :
  recipes (invoke number_to_string net_no_match st_chicken) = []
  /\ error (invoke number_to_string net_no_match st_chicken)
     = Some no_recipes_message
  /\ fetches (trace number_to_string net_no_match st_chicken)
     = [filter_url (lit "chicken")].
Proof.
  destruct (@null_meals_ends_empty number_to_string net_no_match st_chicken
              (lit "chicken") [(lit "meals", VNull)]
              eq_refl eq_refl eq_refl (or_intror eq_refl))
    as [_ [Hrec [Herr [_ [Hfetches _]]]]].
  split; [exact Hrec|]. split; [exact Herr | exact Hfetches].
Defined.

(** Three spaces in the input. *)
Lemma blank_input_rejected_witness :
  forallb is_space (ingredients st_blank) = true
  /\ error (invoke number_to_string net_two st_blank)
     = Some empty_input_message
  /\ fetches (trace number_to_string net_two st_blank) = [].
Proof.
  destruct (@blank_input_rejected number_to_string net_two st_blank eq_refl)
    as [Herr [_ [Hfetches _]]].
  split; [reflexivity|]. split; [exact Herr | exact Hfetches].
Defined.

(** A search with two results. *)
Lemma results_in_candidate_order_witness :
  error (invoke number_to_string net_two st_chicken) = None
  /\ exists ms,
       get_field (filter_payload two_meals) "meals" = Ok (VArr ms)
       /\ length (recipes (invoke number_to_string net_two st_chicken))
          = Nat.min (length ms) 10.
Proof.
  destruct (@results_in_candidate_order number_to_string net_two st_chicken
              eq_refl)
    as [enc [data [ms [Henc [Hdata [Hmeals [Hlen _]]]]]]].
  split; [reflexivity|].
  exists ms. split; [|exact Hlen].
  injection Henc as <-. injection Hdata as <-. exact Hmeals.
Defined.

(** Two results on display, then a blank input. *)
Lemma rejected_input_keeps_results_witness :
  recipes (invoke number_to_string net_two (typed "  " st_two_results))
  = recipes st_two_results
  /\ length (recipes st_two_results) = 2.
Proof.
  destruct (@rejected_input_keeps_results number_to_string net_two
              (typed "  " st_two_results) eq_refl)
    as [_ [Hrec _]].
  split; [exact Hrec | reflexivity].
Defined.

(** A meal with an id and nothing else. *)
Lemma reduce_total_on_valid_detail_witness :
  exists s,
    reduce (filter_payload [candidate "52772"]) =
      Ok {| id := VStr (lit "52772"); name := VUndef; thumbnail := VUndef;
            summary := s; strCategory := VUndef; strArea := VUndef;
            strTags := VUndef |}
    /\ s = [].
Proof.
  destruct (@reduce_total_on_valid_detail
              (filter_payload [candidate "52772"]) (candidate "52772")
              eq_refl
              (fun H : candidate "52772" = VUndef =>
                 eq_ind (candidate "52772")
                   (fun v => match v with VObj _ => True | _ => False end)
                   I VUndef H)
              (fun H : candidate "52772" = VNull =>
                 eq_ind (candidate "52772")
                   (fun v => match v with VObj _ => True | _ => False end)
                   I VNull H)
              (or_introl eq_refl))
    as [s [Hred Hs]].
  exists s. split; [exact Hred | exact (Hs eq_refl)].
Defined.

(** C6, as stated, fails: the payload [{ meals: null }], which the
    lookup endpoint returns for an unknown id, makes the reduction
    throw, and a search all of whose requests were answered ends in the
    failed state. *)
Lemma reduce_throws_on_null_meals :
  reduce null_detail = Throw TypeError
  /\ (forall k url, rejects (net_null_detail k url) = false)
  /\ error (invoke number_to_string net_null_detail st_chicken)
     = Some fetch_error_message
  /\ recipes (invoke number_to_string net_null_detail st_chicken) = [].
Proof.
  split; [reflexivity|]. split; [intros [|k] url; reflexivity|].
  split; reflexivity.
Qed.

(** Mount, type "chicken", search, clear the input, search again. *)
Lemma st_error_and_results_reachable :
  reachable number_to_string st_error_and_results.
Proof.
  unfold st_error_and_results, invoke.
  apply reach_invoke with (net := net_two) (post := []);
    [|symmetry; apply app_nil_r].
  apply reach_type. unfold st_two_results, invoke.
  apply reach_invoke with (net := net_two) (post := []);
    [|symmetry; apply app_nil_r].
  apply reach_type, reach_mount.
Qed.



(** * Further properties *)

(** ** [trim], [split] and [join] *)

Lemma trimStart_decompose (s : jsstring) :
  exists pre,
    s = pre ++ trimStart s
    /\ forallb is_space pre = true
    /\ starts_with_space (trimStart s) = false.
Proof.
  induction s as [|c s [pre [Hs [Hpre Hstart]]]].
  - exists []. repeat split.
  - simpl. destruct (is_space c) eqn:Hc.
    + exists (c :: pre). simpl. rewrite Hc, Hpre. repeat split.
      * f_equal. exact Hs.
      * exact Hstart.
    + exists []. simpl. rewrite Hc. repeat split.
Qed.

Lemma trimEnd_decompose (s : jsstring) :
  exists post,
    s = trimEnd s ++ post
    /\ forallb is_space post = true
    /\ ends_with_space (trimEnd s) = false.
Proof.
  unfold trimEnd, ends_with_space.
  destruct (trimStart_decompose (rev s)) as [pre [Hs [Hpre Hstart]]].
  exists (rev pre). repeat split.
  - rewrite <- rev_app_distr, <- Hs, rev_involutive. reflexivity.
  - rewrite forallb_forall in *. intros x Hx. apply Hpre, in_rev, Hx.
  - rewrite rev_involutive. exact Hstart.
Qed.

Lemma trim_decompose (s : jsstring) :
  exists pre post,
    s = pre ++ trim s ++ post
    /\ forallb is_space pre = true
    /\ forallb is_space post = true
    /\ starts_with_space (trim s) = false
    /\ ends_with_space (trim s) = false.
Proof.
  unfold trim.
  destruct (trimStart_decompose s) as [pre [Hs [Hpre Hstart]]].
  destruct (trimEnd_decompose (trimStart s)) as [post [Ht [Hpost Hend]]].
  exists pre, post. repeat split; try assumption.
  - rewrite <- Ht. exact Hs.
  - destruct (trimEnd (trimStart s)) as [|c t] eqn:He; [reflexivity|].
    rewrite Ht in Hstart. exact Hstart.
Qed.

Lemma trimStart_fixed (s : jsstring) :
  starts_with_space s = false -> trimStart s = s.
Proof. destruct s as [|c s]; simpl; [reflexivity|]. intros ->. reflexivity. Qed.

Lemma trimEnd_fixed (s : jsstring) :
  ends_with_space s = false -> trimEnd s = s.
Proof.
  unfold ends_with_space, trimEnd. intros H.
  rewrite (trimStart_fixed _ H). apply rev_involutive.
Qed.

(** X12.  [trim] removes a run of white space at each end and nothing
    else: the input is the result between two runs of white space, the
    result neither starts nor ends with white space, and trimming it
    again changes nothing. *)
Theorem trim_removes_only_surrounding_space (s : jsstring) :
  exists pre post,
    s = pre ++ trim s ++ post
    /\ forallb is_space pre = true
    /\ forallb is_space post = true
    /\ starts_with_space (trim s) = false
    /\ ends_with_space (trim s) = false
    /\ trim (trim s) = trim s.
Proof.
  destruct (trim_decompose s) as [pre [post [Hs [Hpre [Hpost [Hstart Hend]]]]]].
  exists pre, post. repeat split; try assumption.
  unfold trim at 1. rewrite (trimStart_fixed _ Hstart).
  apply trimEnd_fixed, Hend.
Qed.

Lemma startsWith_prefix (s p : jsstring) :
  startsWith s p = true -> s = p ++ skipn (length p) s.
Proof.
  revert s; induction p as [|b p IH]; intros s H; [reflexivity|].
  destruct s as [|a s]; [discriminate|].
  simpl in H. apply andb_true_iff in H. destruct H as [Hab Hp].
  apply N.eqb_eq in Hab. subst b. simpl. f_equal. apply IH, Hp.
Qed.

Lemma split_scan_cons (sep : jsstring) (s : jsstring) :
  forall skip cur, exists seg segs, split_scan sep skip cur s = seg :: segs.
Proof.
  induction s as [|c s IH]; intros skip cur; simpl; [eauto|].
  destruct skip as [|k]; [|apply IH].
  destruct (startsWith (c :: s) sep); [eauto | apply IH].
Qed.

Lemma join_cons (p : jsstring) (rest : list jsstring) (sep : jsstring) :
  rest <> [] -> join (p :: rest) sep = p ++ sep ++ join rest sep.
Proof. destruct rest; [congruence | reflexivity]. Qed.

Lemma join_split_scan (sep : jsstring) (s : jsstring) :
  sep <> [] ->
  forall skip cur,
    join (split_scan sep skip cur s) sep = rev cur ++ skipn skip s.
Proof.
  intros Hsep. induction s as [|c s IH]; intros skip cur.
  - simpl. destruct skip; simpl; rewrite app_nil_r; reflexivity.
  - cbn [split_scan]. destruct skip as [|k]; [|rewrite IH; reflexivity].
    destruct (startsWith (c :: s) sep) eqn:Hstart.
    + destruct (split_scan_cons sep s (length sep - 1) []) as [seg [segs Hscan]].
      rewrite join_cons by (rewrite Hscan; discriminate).
      rewrite IH. cbn [rev app skipn].
      apply startsWith_prefix in Hstart.
      destruct sep as [|d sep]; [congruence|].
      cbn [length skipn] in Hstart. cbn [length].
      replace (S (length sep) - 1) with (length sep) by lia.
      rewrite <- Hstart. reflexivity.
    + rewrite IH. cbn [rev skipn]. rewrite <- app_assoc. reflexivity.
Qed.

(** X13.  Joining the pieces of a split with the separator gives the
    string back, for every separator (the empty one, which splits into
    code units, included). *)
Theorem join_split (s sep : jsstring) : join (split s sep) sep = s.
Proof.
  destruct sep as [|d sep].
  - simpl. induction s as [|c s IH]; [reflexivity|].
    cbn [map]. destruct s as [|c' s]; [reflexivity|].
    rewrite join_cons by discriminate. rewrite IH. reflexivity.
  - unfold split. rewrite join_split_scan by discriminate. reflexivity.
Qed.

(** ** The summary (lines 83-85) *)

Lemma summary_unfold (text : jsstring) :
  Spec.summary text =
  match trim (summary_head text) with
  | [] => []
  | c :: t =>
      if Spec.ends_with_dot (c :: t) then c :: t else (c :: t) ++ [Spec.dot]
  end.
Proof.
  unfold Spec.summary, summary_head. rewrite trim_strip.
  destruct (Spec.strip_trailing _); reflexivity.
Qed.

Lemma summarize_cases (v : val) (s : jsstring) :
  summarize v = Ok s ->
  s = [] \/ exists text, v = VStr text /\ s = Spec.summary text.
Proof.
  intros H. destruct (truthy v) eqn:Hv.
  - right. destruct v; try discriminate Hv;
      try (unfold summarize, js_or in H; rewrite Hv in H; discriminate H).
    exists s0. split; [reflexivity|].
    destruct (summarize_spec s0) as [_ Hs]. congruence.
  - left. rewrite (summarize_absent v Hv) in H. congruence.
Qed.

Lemma ends_with_dot_inv (t : jsstring) :
  Spec.ends_with_dot t = true -> exists body, t = body ++ [Spec.dot].
Proof.
  unfold Spec.ends_with_dot. destruct t as [|a t] using rev_ind;
    [discriminate|].
  rewrite rev_app_distr. simpl. intros H. apply N.eqb_eq in H. subst a.
  eauto.
Qed.

Lemma rejoin_segments (text : jsstring) :
  Spec.rejoin (Spec.segments text) = text.
Proof.
  rewrite <- join_rejoin, <- split_dot_segments.
  apply join_split_scan. discriminate.
Qed.

Lemma summary_head_prefix (text : jsstring) :
  exists rest, text = summary_head text ++ rest.
Proof.
  unfold summary_head.
  assert (H : forall n, exists rest,
             text = Spec.rejoin (firstn n (Spec.segments text)) ++ rest).
  { induction text as [|c text IH]; intros n.
    - destruct n as [|[|n]]; exists []; reflexivity.
    - destruct n as [|n]; [exists (c :: text); reflexivity|].
      cbn [Spec.segments]. destruct (N.eqb_spec c Spec.dot) as [->|Hc].
      + destruct (IH n) as [rest Hrest].
        cbn [firstn].
        destruct (firstn n (Spec.segments text)) as [|seg segs] eqn:Hf.
        * exists (Spec.dot :: text). reflexivity.
        * exists rest. cbn [Spec.rejoin app]. f_equal. exact Hrest.
      + destruct (IH (S n)) as [rest Hrest].
        destruct (segments_cons text) as [seg [segs Hsegs]].
        rewrite Hsegs in *. cbn [firstn] in *.
        exists rest.
        destruct (firstn n segs) as [|seg' segs'];
          cbn [Spec.rejoin app] in *; f_equal; exact Hrest. }
  apply H.
Qed.

Lemma dots_app (s t : jsstring) : dots (s ++ t) = dots s + dots t.
Proof. apply count_occ_app. Qed.

Lemma segments_no_dot (text seg : jsstring) :
  In seg (Spec.segments text) -> dots seg = 0.
Proof.
  revert seg; induction text as [|c text IH]; intros seg Hin.
  - destruct Hin as [<-|[]]. reflexivity.
  - cbn [Spec.segments] in Hin.
    destruct (N.eqb_spec c Spec.dot) as [->|Hc].
    + destruct Hin as [<-|Hin]; [reflexivity | apply IH, Hin].
    + destruct (segments_cons text) as [seg0 [segs Hsegs]].
      rewrite Hsegs in *. destruct Hin as [<-|Hin].
      * unfold dots. rewrite count_occ_cons_neq by exact Hc.
        apply (IH seg0). left. reflexivity.
      * apply IH. right. exact Hin.
Qed.

Lemma summary_head_dots (text : jsstring) : dots (summary_head text) <= 1.
Proof.
  unfold summary_head.
  pose proof (segments_no_dot text) as Hno.
  destruct (Spec.segments text) as [|a [|b l]]; cbn [firstn Spec.rejoin].
  - apply Nat.le_0_l.
  - rewrite (Hno a) by (left; reflexivity). apply Nat.le_0_l.
  - rewrite dots_app.
    assert (Hb : dots (Spec.dot :: b) = S (dots b)).
    { unfold dots. apply count_occ_cons_eq. reflexivity. }
    rewrite Hb.
    rewrite (Hno a) by (left; reflexivity).
    rewrite (Hno b) by (right; left; reflexivity). apply Nat.le_refl.
Qed.

Lemma blank_segments (text : jsstring) :
  forallb is_space text = true -> Spec.segments text = [text].
Proof.
  induction text as [|c text IH]; [reflexivity|].
  simpl. intros H. apply andb_true_iff in H. destruct H as [Hc Ht].
  destruct (N.eqb_spec c Spec.dot) as [->|_]; [discriminate Hc|].
  rewrite (IH Ht). reflexivity.
Qed.

(** X14.  A summary is empty or ends with ['.'], and never starts with
    white space. *)
Theorem summary_empty_or_closed (v : val) (s : jsstring) :
  summarize v = Ok s ->
  (s = [] \/ exists body, s = body ++ lit ".")
  /\ starts_with_space s = false.
Proof.
  intros H. destruct (summarize_cases v H) as [->|[text [_ ->]]];
    [split; [left|]; reflexivity|].
  rewrite summary_unfold.
  destruct (trim_decompose (summary_head text))
    as [_ [_ [_ [_ [_ [Hstart _]]]]]].
  destruct (trim (summary_head text)) as [|c t]; [split; [left|]; reflexivity|].
  destruct (Spec.ends_with_dot (c :: t)) eqn:Hdot.
  - split; [right; apply ends_with_dot_inv, Hdot | exact Hstart].
  - split; [right; exists (c :: t); reflexivity | exact Hstart].
Qed.

(** X15.  The summary is cut out of the instructions: the instructions
    are a run of white space, then a part that neither starts nor ends
    with white space, then a rest; the summary is that part, or that
    part (when not empty) with a closing ['.'] added.  So the summary
    starts at the first code unit of the instructions that is not white
    space, and is at most one code unit longer than the instructions. *)
Theorem summary_is_part_of_instructions (text : jsstring) :
  exists s pre core post,
    summarize (VStr text) = Ok s
    /\ text = pre ++ core ++ post
    /\ forallb is_space pre = true
    /\ starts_with_space core = false
    /\ ends_with_space core = false
    /\ (s = core \/ (core <> [] /\ s = core ++ lit "."))
    /\ length s <= S (length text).
Proof.
  destruct (summarize_spec text) as [_ Hs].
  destruct (summary_head_prefix text) as [rest Hrest].
  destruct (trim_decompose (summary_head text))
    as [pre [post [Hhead [Hpre [_ [Hstart Hend]]]]]].
  exists (Spec.summary text), pre, (trim (summary_head text)), (post ++ rest).
  split; [exact Hs|].
  assert (Htext : text = pre ++ trim (summary_head text) ++ post ++ rest).
  { rewrite Hrest at 1. rewrite Hhead at 1.
    rewrite <- !app_assoc. reflexivity. }
  split; [exact Htext|]. split; [exact Hpre|].
  split; [exact Hstart|]. split; [exact Hend|].
  assert (Hlen : length (trim (summary_head text)) <= length text).
  { rewrite Htext at 2. rewrite !length_app. lia. }
  rewrite summary_unfold.
  destruct (trim (summary_head text)) as [|c t]; [split; [left; reflexivity|]|].
  - apply Nat.le_0_l.
  - destruct (Spec.ends_with_dot (c :: t)).
    + split; [left; reflexivity | lia].
    + split; [right; split; [discriminate | reflexivity]|].
      rewrite length_app. simpl in *. lia.
Qed.

(** X16.  A summary holds at most two ['.']. *)
Theorem summary_at_most_two_dots (v : val) (s : jsstring) :
  summarize v = Ok s -> dots s <= 2.
Proof.
  intros H. destruct (summarize_cases v H) as [->|[text [_ ->]]];
    [apply Nat.le_0_l|].
  rewrite summary_unfold.
  pose proof (summary_head_dots text) as Hhead.
  destruct (trim_decompose (summary_head text)) as [pre [post [Hsplit _]]].
  rewrite Hsplit in Hhead. rewrite !dots_app in Hhead.
  destruct (trim (summary_head text)) as [|c t]; [apply Nat.le_0_l|].
  destruct (Spec.ends_with_dot (c :: t)); [lia|].
  rewrite dots_app. change (dots [Spec.dot]) with 1. lia.
Qed.

(** X17.  The summary of a text is empty exactly when the text is empty
    or white space only. *)
Theorem summary_empty_iff_blank (text : jsstring) :
  summarize (VStr text) = Ok [] <-> forallb is_space text = true.
Proof.
  destruct (summarize_spec text) as [_ Hs]. rewrite Hs, summary_unfold.
  split.
  - intros H.
    assert (Ht : trim (summary_head text) = []).
    { destruct (trim (summary_head text)) as [|c t]; [reflexivity|].
      destruct (Spec.ends_with_dot (c :: t)); [discriminate H|].
      injection H as H. destruct t; discriminate H. }
    apply trim_nil in Ht. unfold summary_head in Ht.
    pose proof (rejoin_segments text) as Hround.
    destruct (Spec.segments text) as [|a [|b l]]; cbn [firstn Spec.rejoin] in *.
    + rewrite <- Hround. reflexivity.
    + rewrite <- Hround. exact Ht.
    + rewrite forallb_app in Ht. apply andb_true_iff in Ht.
      destruct Ht as [_ Ht]. discriminate Ht.
  - intros Hblank. unfold summary_head.
    rewrite (blank_segments text Hblank). cbn [firstn Spec.rejoin].
    apply trim_nil in Hblank. rewrite Hblank. reflexivity.
Qed.

(** ** [encodeURIComponent] (line 56) *)

Lemma is_unreserved_iff (c : char16) :
  is_unreserved c = true <->
  (65 <= c <= 90 \/ 97 <= c <= 122 \/ 48 <= c <= 57
   \/ c = 45 \/ c = 95 \/ c = 46 \/ c = 33 \/ c = 126
   \/ c = 42 \/ c = 39 \/ c = 40 \/ c = 41)%N.
Proof.
  unfold is_unreserved.
  rewrite !orb_true_iff, !andb_true_iff, !N.leb_le, !N.eqb_eq. tauto.
Qed.

Lemma hex_digit_unreserved (d : N) :
  (d < 16)%N -> is_unreserved (hex_digit d) = true.
Proof.
  intros Hd. apply is_unreserved_iff. unfold hex_digit.
  destruct (N.ltb_spec d 10); lia.
Qed.

Lemma percent_safe (octet c : N) :
  (octet < 256)%N -> In c (percent octet) ->
  is_unreserved c = true \/ c = 37%N.
Proof.
  intros Ho [<-|[<-|[<-|[]]]].
  - right. reflexivity.
  - left. apply hex_digit_unreserved.
    apply N.Div0.div_lt_upper_bound. lia.
  - left. apply hex_digit_unreserved. apply N.mod_lt. discriminate.
Qed.

Lemma utf8_octets (cp octet : N) :
  (cp < 1114112)%N -> In octet (utf8 cp) -> (octet < 256)%N.
Proof.
  intros Hcp. unfold utf8.
  assert (H64 : forall x, (x mod 64 < 64)%N)
    by (intros x; apply N.mod_lt; discriminate).
  destruct (N.ltb_spec cp 128); [intros [<-|[]]; lia|].
  destruct (N.ltb_spec cp 2048).
  { assert (cp / 64 < 32)%N by (apply N.Div0.div_lt_upper_bound; lia).
    pose proof (H64 cp).
    intros [<-|[<-|[]]]; lia. }
  destruct (N.ltb_spec cp 65536).
  { assert (cp / 4096 < 16)%N by (apply N.Div0.div_lt_upper_bound; lia).
    pose proof (H64 cp). pose proof (H64 (cp / 64)%N).
    intros [<-|[<-|[<-|[]]]]; lia. }
  assert (cp / 262144 < 5)%N by (apply N.Div0.div_lt_upper_bound; lia).
  pose proof (H64 cp). pose proof (H64 (cp / 64)%N).
  pose proof (H64 (cp / 4096)%N).
  intros [<-|[<-|[<-|[<-|[]]]]]; lia.
Qed.

Lemma escape_safe (cp c : N) :
  (cp < 1114112)%N -> In c (escape cp) ->
  is_unreserved c = true \/ c = 37%N.
Proof.
  intros Hcp Hin. unfold escape in Hin. apply in_flat_map in Hin.
  destruct Hin as [octet [Ho Hc]].
  eapply percent_safe; [eapply utf8_octets; eassumption | exact Hc].
Qed.

Lemma surrogate_bounds (c : char16) :
  (is_lead c = true <-> (55296 <= c <= 56319)%N)
  /\ (is_trail c = true <-> (56320 <= c <= 57343)%N).
Proof.
  unfold is_lead, is_trail.
  rewrite !andb_true_iff, !N.leb_le. tauto.
Qed.

Lemma encode_safe_bounded (n : nat) (s e : jsstring) (c : char16) :
  length s <= n ->
  Forall (fun u => (u < 65536)%N) s ->
  encodeURIComponent s = Ok e ->
  In c e ->
  is_unreserved c = true \/ c = 37%N.
Proof.
  revert s e; induction n as [|n IH]; intros s e Hlen Hs He Hin.
  - destruct s; [|simpl in Hlen; lia]. injection He as <-. destruct Hin.
  - destruct s as [|u s]; [injection He as <-; destruct Hin|].
    simpl in Hlen. inversion Hs as [|u' s' Hu Hs']; subst.
    cbn [encodeURIComponent] in He.
    destruct (is_unreserved u) eqn:Hunres.
    + destruct (encodeURIComponent s) as [rest|x] eqn:Hrest; [|discriminate].
      injection He as <-. destruct Hin as [<-|Hin]; [left; exact Hunres|].
      apply (IH s rest); [lia | exact Hs' | exact Hrest | exact Hin].
    + destruct (is_trail u) eqn:Htrail; [discriminate|].
      destruct (is_lead u) eqn:Hlead.
      * destruct s as [|d s]; [discriminate|].
        destruct (is_trail d) eqn:Hd; [|discriminate].
        destruct (encodeURIComponent s) as [rest|x] eqn:Hrest; [|discriminate].
        injection He as <-. apply in_app_or in Hin.
        destruct Hin as [Hin|Hin].
        -- eapply escape_safe; [|exact Hin].
           apply (surrogate_bounds u) in Hlead.
           apply (surrogate_bounds d) in Hd. lia.
        -- inversion Hs' as [|d' s'' Hd' Hs'']; subst.
           simpl in Hlen.
           apply (IH s rest); [lia | exact Hs'' | exact Hrest | exact Hin].
      * destruct (encodeURIComponent s) as [rest|x] eqn:Hrest; [|discriminate].
        injection He as <-. apply in_app_or in Hin.
        destruct Hin as [Hin|Hin].
        -- eapply escape_safe; [|exact Hin]. lia.
        -- apply (IH s rest); [lia | exact Hs' | exact Hrest | exact Hin].
Qed.

(** X18.  The encoded query holds nothing but unreserved characters
    (letters, digits and [-_.!~*'()]) and ['%']: no ['&'], ['='], ['#'],
    ['?'], ['/'] or space of the input reaches the URL unescaped. *)
Theorem encoded_query_is_url_safe (s e : jsstring) (c : char16) :
  Forall (fun u => (u < 65536)%N) s ->
  encodeURIComponent s = Ok e ->
  In c e ->
  is_unreserved c = true \/ c = 37%N.
Proof.
  intros Hs He Hin.
  eapply encode_safe_bounded; [apply Nat.le_refl | exact Hs | exact He | exact Hin].
Qed.

(** X19.  [encodeURIComponent] throws on no string without surrogate
    code units. *)
Theorem encode_total_without_surrogates (s : jsstring) :
  forallb (fun c => negb (is_surrogate c)) s = true ->
  exists e, encodeURIComponent s = Ok e.
Proof.
  induction s as [|c s IH]; [exists []; reflexivity|].
  cbn [forallb]. intros H. apply andb_true_iff in H. destruct H as [Hc Hs].
  destruct (IH Hs) as [rest Hrest].
  unfold is_surrogate in Hc. apply negb_true_iff, orb_false_iff in Hc.
  destruct Hc as [Hlead Htrail].
  cbn [encodeURIComponent]. rewrite Hrest, Hlead, Htrail.
  destruct (is_unreserved c); cbn [res_bind]; eexists; reflexivity.
Qed.

(** X20.  A query of unreserved characters only is sent as typed. *)
Theorem encode_keeps_unreserved (s : jsstring) :
  forallb is_unreserved s = true -> encodeURIComponent s = Ok s.
Proof.
  induction s as [|c s IH]; [reflexivity|].
  cbn [forallb]. intros H. apply andb_true_iff in H. destruct H as [Hc Hs].
  cbn [encodeURIComponent]. rewrite Hc, (IH Hs). reflexivity.
Qed.

(** ** The outcomes of an invocation *)

Section Outcomes.

Variable nts : spec_float -> jsstring.
Variable net : nat -> jsstring -> promise response.

Lemma issued_length (ms : list val) : length (issued nts ms) <= length ms.
Proof.
  induction ms as [|m ms IH]; simpl; [apply Nat.le_refl|].
  destruct (lookup_url nts m); simpl; lia.
Qed.

Lemma issued_in (ms : list val) (url : jsstring) :
  In url (issued nts ms) -> exists m, In m ms /\ lookup_url nts m = Ok url.
Proof.
  induction ms as [|m ms IH]; simpl; [tauto|].
  destruct (lookup_url nts m) as [u|e] eqn:Hm; [|intros []].
  intros [<-|Hin]; [eauto|].
  destruct (IH Hin) as [m' [Hin' Hm']]. eauto.
Qed.

Lemma res_map_in {A B : Type} (f : A -> res B) (xs : list A) (ys : list B)
    (x : A) :
  res_map f xs = Ok ys -> In x xs -> exists y, f x = Ok y.
Proof.
  intros Hmap Hin. apply In_nth_error in Hin. destruct Hin as [i Hi].
  destruct (res_map_nth _ _ _ Hmap Hi) as [y [Hy _]]. eauto.
Qed.

Lemma firstn_ten_length {A : Type} (xs : list A) : length (firstn 10 xs) <= 10.
Proof. rewrite length_firstn. lia. Qed.

(** The state after a search whose [try] block completed. *)
Lemma completed_run (st : AppState) (t : list event) :
  search_path nts net (trim (ingredients st)) t (Ok tt) ->
  trace nts net st =
    searching_prefix ++ t ++ catch_events (Ok tt) ++ [SetLoading false] ->
  invoke nts net st =
    {| ingredients := ingredients st; loading := false;
       recipes := []; error := Some no_recipes_message |}
  \/ exists mapped,
       length mapped <= 10
       /\ invoke nts net st =
          {| ingredients := ingredients st; loading := false;
             recipes := mapped; error := None |}.
Proof.
  intros Hp Ht. unfold invoke. rewrite Ht.
  inversion Hp as [ | | | enc data meals Henc Hdata Hmeals Hfalsy
                   | | | |
                   | enc data ms urls details mapped
                       Henc Hdata Hmeals Hurls Hall Hred ]; subst.
  - left.
    change [Fetch (filter_url enc); SetRecipes [];
            SetError (Some no_recipes_message); SetLoading false]
      with (map Fetch [filter_url enc]
            ++ [SetRecipes []; SetError (Some no_recipes_message);
                SetLoading false]).
    rewrite <- app_assoc, replay_searching_then. reflexivity.
  - right. exists mapped. split.
    + rewrite (res_map_length _ _ Hred).
      unfold Promise_all in Hall. rewrite (res_map_length _ _ Hall).
      rewrite settle_length, (res_map_length _ _ Hurls).
      apply firstn_ten_length.
    + change (Fetch (filter_url enc) :: map Fetch urls ++ [SetRecipes mapped])
        with (map Fetch (filter_url enc :: urls) ++ [SetRecipes mapped]).
      rewrite <- app_assoc, replay_searching_then. reflexivity.
Qed.

(** X2.  When the filter request fails (its [fetch] rejects, or its
    body is not JSON), the search ends in the failed state and no lookup
    is requested. *)
Theorem filter_failure_fails_search (st : AppState) (enc : jsstring) :
  forallb is_space (ingredients st) = false ->
  encodeURIComponent (trim (ingredients st)) = Ok enc ->
  rejects (net 0 (filter_url enc)) = true ->
  invoke nts net st = failed_state st
  /\ fetches (trace nts net st) = [filter_url enc].
Proof.
  intros Hb Henc Hrej.
  destruct (trace_searching nts net st Hb) as [t [r [Hp Ht]]].
  unfold rejects in Hrej.
  inversion Hp; subst; same_results;
    try match goal with
        | H : then_ _ json = Ok _ |- _ =>
            rewrite H in Hrej; discriminate Hrej
        end.
  destruct (failed_run st Hp Ht) as [Hinv _].
  split; [exact Hinv|]. rewrite Ht, fetches_trace_searching. reflexivity.
Qed.

(** X3.  When the trimmed input cannot be encoded (it holds a surrogate
    without its pair), the search ends in the failed state without any
    request. *)
Theorem unencodable_query_fails_without_request (st : AppState) (e : exn) :
  forallb is_space (ingredients st) = false ->
  encodeURIComponent (trim (ingredients st)) = Throw e ->
  invoke nts net st = failed_state st
  /\ fetches (trace nts net st) = [].
Proof.
  intros Hb Henc.
  destruct (trace_searching nts net st Hb) as [t [r [Hp Ht]]].
  inversion Hp; subst; same_results.
  destruct (failed_run st Hp Ht) as [Hinv _].
  split; [exact Hinv|]. rewrite Ht, fetches_trace_searching. reflexivity.
Qed.

(** X4.  When [meals] of the filter response is truthy but not an array
    (a string, a number, an object), the search ends in the failed
    state and no lookup is requested. *)
Theorem non_array_meals_fails_search (st : AppState) (enc : jsstring)
    (data meals : val) :
  forallb is_space (ingredients st) = false ->
  encodeURIComponent (trim (ingredients st)) = Ok enc ->
  then_ (net 0 (filter_url enc)) json = Ok data ->
  get_field data "meals" = Ok meals ->
  truthy meals = true ->
  (forall ms, meals <> VArr ms) ->
  invoke nts net st = failed_state st
  /\ fetches (trace nts net st) = [filter_url enc].
Proof.
  intros Hb Henc Hdata Hmeals Htruthy Hno.
  destruct (trace_searching nts net st Hb) as [t [r [Hp Ht]]].
  inversion Hp; subst; same_results; try congruence;
    try (exfalso; eapply Hno; reflexivity).
  destruct (failed_run st Hp Ht) as [Hinv _].
  split; [exact Hinv|]. rewrite Ht, fetches_trace_searching. reflexivity.
Qed.

(** The requests of a search whose filter response holds an array. *)
Lemma fetches_of_array_meals (st : AppState) (enc : jsstring) (data : val)
    (ms : list val) :
  forallb is_space (ingredients st) = false ->
  encodeURIComponent (trim (ingredients st)) = Ok enc ->
  then_ (net 0 (filter_url enc)) json = Ok data ->
  get_field data "meals" = Ok (VArr ms) ->
  fetches (trace nts net st) = filter_url enc :: issued nts (firstn 10 ms).
Proof.
  intros Hb Henc Hdata Hmeals.
  destruct (trace_searching nts net st Hb) as [t [r [Hp ->]]].
  rewrite fetches_trace_searching.
  destruct Hp; same_results; try discriminate;
    try match goal with
        | Hno : forall l, _ <> VArr l |- _ =>
            exfalso; eapply Hno; reflexivity
        end;
    cbn [fetches]; rewrite ?fetches_app, ?fetches_map_Fetch;
    cbn [fetches]; rewrite ?app_nil_r;
    try (erewrite res_map_issued by eassumption); reflexivity.
Qed.

Lemma search_path_fetches (query : jsstring) (t : list event) (r : res unit) :
  search_path nts net query t r ->
  fetches t = []
  \/ exists enc ms,
       encodeURIComponent query = Ok enc
       /\ (fetches t = [filter_url enc]
           \/ fetches t = filter_url enc :: issued nts (firstn 10 ms)).
Proof.
  intros Hp; destruct Hp; [left; reflexivity | ..]; right;
    try (exists enc, []; split; [assumption | left; reflexivity]);
    exists enc, ms; (split; [assumption|]); right;
    cbn [fetches]; rewrite ?fetches_app, ?fetches_map_Fetch;
    cbn [fetches]; rewrite ?app_nil_r;
    try (erewrite res_map_issued by eassumption); reflexivity.
Qed.

(** X5.  An invocation issues at most eleven requests, whatever the
    responses are. *)
Theorem at_most_eleven_requests (st : AppState) :
  length (fetches (trace nts net st)) <= 11.
Proof.
  destruct (forallb is_space (ingredients st)) eqn:Hb.
  { rewrite (trace_blank nts net st Hb). simpl. lia. }
  destruct (trace_searching nts net st Hb) as [t [r [Hp ->]]].
  rewrite fetches_trace_searching.
  destruct (search_path_fetches Hp) as [->|[enc [ms [_ [->| ->]]]]];
    cbn [length]; try lia.
  pose proof (issued_length (firstn 10 ms)).
  pose proof (firstn_ten_length ms). lia.
Qed.

Lemma issued_nth (ms : list val) (i : nat) (url : jsstring) :
  nth_error (issued nts ms) i = Some url ->
  exists m, nth_error ms i = Some m /\ lookup_url nts m = Ok url.
Proof.
  revert i; induction ms as [|m ms IH]; intros i; simpl.
  - destruct i; discriminate.
  - destruct (lookup_url nts m) as [u|e] eqn:Hm; [|destruct i; discriminate].
    destruct i as [|i]; simpl.
    + intros H. injection H as <-. eauto.
    + apply IH.
Qed.

(** The requests of a path, for a query that can be encoded: the filter
    request, then the lookups of the leading entries of [meals]. *)
Lemma search_path_lookups (query : jsstring) (t : list event) (r : res unit)
    (enc : jsstring) :
  search_path nts net query t r ->
  encodeURIComponent query = Ok enc ->
  exists rest,
    fetches t = filter_url enc :: rest
    /\ (rest = []
        \/ exists data ms,
             then_ (net 0 (filter_url enc)) json = Ok data
             /\ get_field data "meals" = Ok (VArr ms)
             /\ rest = issued nts (firstn 10 ms)).
Proof.
  intros Hp Henc; destruct Hp; same_results;
    try (exists []; split; [reflexivity | left; reflexivity]);
    exists (issued nts (firstn 10 ms));
    (split; [|right; exists data, ms; repeat split; assumption]);
    cbn [fetches]; rewrite ?fetches_app, ?fetches_map_Fetch;
    cbn [fetches]; rewrite ?app_nil_r;
    try (erewrite res_map_issued by eassumption); reflexivity.
Qed.

(** X6.  A search on a non-blank input that can be encoded starts with
    the filter request for the trimmed input, encoded; the [i]-th
    request after it, if any, is the lookup of the [i]-th entry of the
    [meals] array of the filter response, and [i < 10]. *)
Theorem first_request_is_filter_of_trimmed_query (st : AppState)
    (enc : jsstring) :
  forallb is_space (ingredients st) = false ->
  encodeURIComponent (trim (ingredients st)) = Ok enc ->
  exists rest,
    fetches (trace nts net st) = filter_url enc :: rest
    /\ forall i url,
         nth_error rest i = Some url ->
         i < 10
         /\ exists data ms m,
              then_ (net 0 (filter_url enc)) json = Ok data
              /\ get_field data "meals" = Ok (VArr ms)
              /\ nth_error ms i = Some m
              /\ lookup_url nts m = Ok url.
Proof.
  intros Hb Henc.
  destruct (trace_searching nts net st Hb) as [t [r [Hp ->]]].
  rewrite fetches_trace_searching.
  destruct (search_path_lookups Hp Henc) as [rest [Hf Hrest]].
  exists rest. split; [exact Hf|]. intros i url Hnth.
  destruct Hrest as [->|[data [ms [Hdata [Hmeals ->]]]]];
    [destruct i; discriminate|].
  destruct (issued_nth _ _ Hnth) as [m [Hm Hurl]].
  rewrite nth_error_firstn in Hm.
  destruct (Nat.ltb_spec i 10) as [Hi|Hi]; [|discriminate].
  split; [exact Hi|]. exists data, ms, m. repeat split; assumption.
Qed.

(** X7.  The state a search on a non-blank input ends in does not
    depend on the message, the results or the loading flag it started
    with. *)
Theorem search_forgets_prior_state (st st' : AppState) :
  ingredients st = ingredients st' ->
  forallb is_space (ingredients st) = false ->
  invoke nts net st = invoke nts net st'.
Proof.
  intros Hsame Hb.
  assert (Htrace : trace nts net st' = trace nts net st).
  { unfold trace. rewrite Hsame. reflexivity. }
  unfold invoke. rewrite Htrace.
  destruct (trace_searching nts net st Hb) as [t [r [Hp ->]]].
  destruct (search_path_shape Hp) as [urls [tail [-> _]]].
  rewrite <- !app_assoc, !replay_searching_then, Hsame. reflexivity.
Qed.

(** X8.  When the filter response holds an array, every lookup of its
    first ten entries is answered with JSON, and every payload can be
    reduced, the search ends with the reduced records, in order, no
    message and [loading] false. *)
Theorem answered_search_succeeds (st : AppState) (enc : jsstring)
    (data : val) (ms : list val) (urls : list jsstring)
    (details : list val) (mapped : list DisplayRecipe) :
  forallb is_space (ingredients st) = false ->
  encodeURIComponent (trim (ingredients st)) = Ok enc ->
  then_ (net 0 (filter_url enc)) json = Ok data ->
  get_field data "meals" = Ok (VArr ms) ->
  res_map (lookup_url nts) (firstn 10 ms) = Ok urls ->
  Promise_all (settle net 1 urls) = Ok details ->
  res_map reduce details = Ok mapped ->
  invoke nts net st =
    {| ingredients := ingredients st; loading := false;
       recipes := mapped; error := None |}.
Proof.
  intros Hb Henc Hdata Hmeals Hurls Hall Hred.
  destruct (trace_searching nts net st Hb) as [t [r [Hp Ht]]].
  unfold invoke. rewrite Ht.
  inversion Hp; subst; same_results; try discriminate;
    try match goal with
        | Hno : forall l, _ <> VArr l |- _ =>
            exfalso; eapply Hno; reflexivity
        end.
  match goal with
  | |- context [Fetch ?f :: map Fetch ?us ++ [SetRecipes ?m]] =>
      change (Fetch f :: map Fetch us ++ [SetRecipes m])
        with (map Fetch (f :: us) ++ [SetRecipes m])
  end.
  rewrite <- app_assoc, replay_searching_then. reflexivity.
Qed.

Lemma lookup_url_string_id (m : val) :
  has_string_id m = true -> lookup_url nts m = Ok (id_url m).
Proof.
  unfold has_string_id, id_url, string_id, lookup_url.
  destruct m as [| | | | |?|fields]; try discriminate.
  cbn [get_field property res_bind].
  destruct (own_property fields (lit "idMeal")) as [[]|]; try discriminate.
  reflexivity.
Qed.

Lemma issued_string_ids (ms : list val) :
  forallb has_string_id ms = true -> issued nts ms = map id_url ms.
Proof.
  induction ms as [|m ms IH]; [reflexivity|].
  cbn [forallb]. intros H. apply andb_true_iff in H. destruct H as [Hm Hms].
  cbn [issued map]. rewrite (lookup_url_string_id m Hm), (IH Hms).
  reflexivity.
Qed.

Lemma forallb_firstn {A : Type} (f : A -> bool) (n : nat) (xs : list A) :
  forallb f xs = true -> forallb f (firstn n xs) = true.
Proof.
  rewrite !forallb_forall. intros H x Hx. apply H.
  rewrite <- (firstn_skipn n xs). apply in_or_app. left. exact Hx.
Qed.

(** X9.  When every entry of [meals] is an object with a string
    [idMeal], the lookups requested are those of the first
    [min(N, 10)] ids, in order, each id put into the URL as it is; that
    makes [1 + min(N, 10)] requests. *)
Theorem string_ids_all_looked_up (st : AppState) (enc : jsstring)
    (data : val) (ms : list val) :
  forallb is_space (ingredients st) = false ->
  encodeURIComponent (trim (ingredients st)) = Ok enc ->
  then_ (net 0 (filter_url enc)) json = Ok data ->
  get_field data "meals" = Ok (VArr ms) ->
  forallb has_string_id ms = true ->
  fetches (trace nts net st)
  = filter_url enc :: map id_url (first_candidates ms)
  /\ length (fetches (trace nts net st)) = S (Nat.min (length ms) 10).
Proof.
  intros Hb Henc Hdata Hmeals Hids.
  rewrite (fetches_of_array_meals st Hb Henc Hdata Hmeals).
  rewrite (issued_string_ids _ (forallb_firstn _ 10 _ Hids)).
  unfold first_candidates. rewrite firstn_min_length.
  split; [reflexivity|].
  cbn [length]. rewrite length_map, length_firstn. lia.
Qed.

(** X10.  When one of the first ten entries of [meals] is such that its
    lookup URL cannot be built ([null], in particular), the search ends
    in the failed state. *)
Theorem unusable_candidate_fails_search (st : AppState) (enc : jsstring)
    (data : val) (ms : list val) (m : val) (e : exn) :
  forallb is_space (ingredients st) = false ->
  encodeURIComponent (trim (ingredients st)) = Ok enc ->
  then_ (net 0 (filter_url enc)) json = Ok data ->
  get_field data "meals" = Ok (VArr ms) ->
  In m (firstn 10 ms) ->
  lookup_url nts m = Throw e ->
  invoke nts net st = failed_state st.
Proof.
  intros Hb Henc Hdata Hmeals Hin Hm.
  destruct (trace_searching nts net st Hb) as [t [r [Hp Ht]]].
  destruct r as [[]|e'].
  - exfalso. inversion Hp; subst; same_results; try discriminate.
    match goal with
    | H : res_map (lookup_url nts) _ = Ok _ |- _ =>
        pose proof (res_map_in _ _ _ H Hin) as Hy
    end.
    destruct Hy as [y Hy]. congruence.
  - apply (failed_run st Hp Ht).
Qed.

(** X11.  [console.error] is called in exactly the invocations that end
    with the fetch-error message. *)
Theorem console_error_iff_failed (st : AppState) :
  In ConsoleError (trace nts net st)
  <-> error (invoke nts net st) = Some fetch_error_message.
Proof.
  destruct (forallb is_space (ingredients st)) eqn:Hb.
  { unfold invoke. rewrite (trace_blank nts net st Hb). split.
    - intros [H|[H|[]]]; discriminate.
    - intros H. vm_compute in H. discriminate. }
  destruct (trace_searching nts net st Hb) as [t [r [Hp Ht]]].
  destruct r as [[]|e].
  - split.
    + intros Hin. exfalso. rewrite Ht in Hin.
      destruct (search_path_shape Hp) as [urls [tail [-> [_ Htail]]]].
      apply in_app_or in Hin. destruct Hin as [Hin|Hin].
      { destruct Hin as [H|[H|[H|[]]]]; discriminate. }
      apply in_app_or in Hin. destruct Hin as [Hin|Hin].
      * apply in_app_or in Hin. destruct Hin as [Hin|Hin].
        -- apply in_map_iff in Hin. destruct Hin as [u [H _]]. discriminate.
        -- destruct Htail as [-> | [mapped ->]];
             repeat (destruct Hin as [H|Hin]; [discriminate|]);
             destruct Hin.
      * destruct Hin as [H|[]]; discriminate.
    + intros Herr. exfalso.
      destruct (completed_run st Hp Ht) as [Hinv|[mapped [_ Hinv]]];
        rewrite Hinv in Herr; [vm_compute in Herr|]; discriminate.
  - split.
    + intros _. destruct (failed_run st Hp Ht) as [-> _]. reflexivity.
    + intros _. rewrite Ht. apply in_or_app. right.
      apply in_or_app. right. left. reflexivity.
Qed.

End Outcomes.

(** ** Invariants of the reachable states, and the screen *)

Ltac in_cases :=
  repeat match goal with
  | H : In _ (_ ++ _) |- _ => apply in_app_or in H; destruct H as [H|H]
  | H : In _ (_ :: _) |- _ => destruct H as [H|H]
  | H : In _ [] |- _ => destruct H
  | H : In _ (map _ _) |- _ =>
      apply in_map_iff in H; destruct H as [? [H _]]
  end.

(** What the setters are called with in an invocation. *)
Lemma trace_setters (nts : spec_float -> jsstring)
    (net : nat -> jsstring -> promise response) (st : AppState) :
  (forall rs, In (SetRecipes rs) (trace nts net st) -> length rs <= 10)
  /\ (forall e, In (SetError e) (trace nts net st) -> known_message e).
Proof.
  destruct (forallb is_space (ingredients st)) eqn:Hb.
  { rewrite (trace_blank nts net st Hb). split; intros x Hin; in_cases;
      try discriminate Hin; injection Hin as <-; unfold known_message; auto. }
  destruct (trace_searching nts net st Hb) as [t [r [Hp ->]]].
  unfold searching_prefix.
  assert (Hlen : forall mapped details urls ms,
             res_map reduce details = Ok mapped ->
             Promise_all (settle net 1 urls) = Ok details ->
             res_map (lookup_url nts) (firstn 10 ms) = Ok urls ->
             length mapped <= 10).
  { intros mapped details urls ms Hred Hall Hurls.
    rewrite (res_map_length _ _ Hred).
    unfold Promise_all in Hall. rewrite (res_map_length _ _ Hall).
    rewrite settle_length, (res_map_length _ _ Hurls).
    apply firstn_ten_length. }
  split; intros x Hin; destruct Hp; cbn [catch_events] in Hin; in_cases;
    try discriminate Hin; injection Hin as <-;
    unfold known_message; auto; try (apply Nat.le_0_l).
  eapply Hlen; eassumption.
Qed.

Lemma replay_setters (Pr : list DisplayRecipe -> Prop)
    (Pe : option jsstring -> Prop) (evs : list event) (st : AppState) :
  Pr (recipes st) -> Pe (error st) ->
  (forall rs, In (SetRecipes rs) evs -> Pr rs) ->
  (forall e, In (SetError e) evs -> Pe e) ->
  Pr (recipes (replay st evs)) /\ Pe (error (replay st evs)).
Proof.
  revert st; induction evs as [|ev evs IH]; intros st Hr He Hrs Hes;
    [split; assumption|].
  cbn [replay fold_left]. apply IH.
  - destruct ev; cbn [apply_event recipes]; try exact Hr.
    apply Hrs. left. reflexivity.
  - destruct ev; cbn [apply_event error]; try exact He.
    apply Hes. left. reflexivity.
  - intros rs Hin. apply Hrs. right. exact Hin.
  - intros e Hin. apply Hes. right. exact Hin.
Qed.

(** X21.  In every reachable state the list holds at most ten results. *)
Theorem reachable_results_at_most_ten (nts : spec_float -> jsstring)
    (st : AppState) :
  reachable nts st -> length (recipes st) <= 10.
Proof.
  intros Hreach.
  induction Hreach as [|st text _ IH|st net pre post _ IH Hsplit].
  - apply Nat.le_0_l.
  - exact IH.
  - destruct (trace_setters nts net st) as [Hrs _].
    apply (@replay_setters (fun rs => length rs <= 10) (fun _ => True) pre st);
      try assumption; try exact I; [|intros e _; exact I].
    intros rs Hin. apply Hrs. rewrite Hsplit. apply in_or_app. left.
    exact Hin.
Qed.

(** X22.  In every reachable state [error] is [null] or one of the three
    messages of the component; as none of them is empty, the screen
    shows the message exactly when [error] is set. *)
Theorem reachable_error_shown (nts : spec_float -> jsstring)
    (st : AppState) :
  reachable nts st ->
  known_message (error st)
  /\ error_view st =
     match error st with
     | Some message => Element "Text" [] [Expr (VStr message)]
     | None => Nothing
     end.
Proof.
  intros Hreach.
  assert (Hknown : known_message (error st)).
  { induction Hreach as [|st text _ IH|st net pre post _ IH Hsplit].
    - left. reflexivity.
    - exact IH.
    - destruct (trace_setters nts net st) as [_ Hes].
      apply (@replay_setters (fun _ => True) known_message pre st);
        try assumption; try exact I; [intros rs _; exact I|].
      intros e Hin. apply Hes. rewrite Hsplit. apply in_or_app. left.
      exact Hin. }
  split; [exact Hknown|].
  unfold error_view, error_value.
  destruct Hknown as [->|[->|[->| ->]]]; reflexivity.
Qed.

(** X23.  The card of a record reduced from a detail payload shows, in
    this order, the meal's name, its category or "Main Course" when the
    category is missing or falsy, its area when that is truthy, and the
    summary; it holds an image exactly when the meal has a truthy
    thumbnail. *)
Theorem card_of_reduced_detail (d : val) (r : DisplayRecipe) :
  reduce d = Ok r ->
  exists meal,
    first_meal d = Ok meal
    /\ texts (renderItem r) =
       [property meal "strMeal";
        js_or (property meal "strCategory") (VStr (lit "Main Course"))]
       ++ (if truthy (property meal "strArea")
           then [property meal "strArea"] else [])
       ++ [VStr (summary r)]
    /\ renderItem r =
       Element "TouchableOpacity" []
         [Element "View" []
            [(if truthy (property meal "strMealThumb")
              then Element "Image"
                     [("source.uri"%string, property meal "strMealThumb")] []
              else Nothing);
             Element "View" []
               [Element "Text" [] [Expr (property meal "strMeal")];
                Element "View" []
                  [Element "Text" []
                     [Expr (js_or (property meal "strCategory")
                              (VStr (lit "Main Course")))];
                   (if truthy (property meal "strArea")
                    then Element "Text" [] [Expr (property meal "strArea")]
                    else Nothing)];
                Element "Text" [] [Expr (VStr (summary r))]]]].
Proof.
  intros Hred.
  destruct (reduce_ok_only_on_valid_detail d Hred)
    as [meal [Hm [Hu [Hn Hinstr]]]].
  assert (Hs : exists s, summarize (property meal "strInstructions") = Ok s).
  { destruct Hinstr as [Hfalsy | [text Htext]].
    - exists []. apply summarize_absent, Hfalsy.
    - exists (Spec.summary text). rewrite Htext. apply summarize_spec. }
  destruct Hs as [s Hs].
  rewrite (reduce_meal d Hm Hu Hn Hs) in Hred. injection Hred as <-.
  exists meal. split; [exact Hm|]. unfold renderItem.
  cbn [thumbnail name strCategory strArea summary].
  split; [|reflexivity].
  destruct (truthy (property meal "strMealThumb"));
    destruct (truthy (property meal "strArea")); reflexivity.
Qed.

(** ** The further properties at the samples *)

Import Edge.

(** "Mix well" is closed with a ['.']. *)
Lemma summary_empty_or_closed_witness :
  summarize (VStr (lit "Mix well")) = Ok (lit "Mix well.")
  /\ (exists body, lit "Mix well." = body ++ lit ".")
  /\ starts_with_space (lit "Mix well.") = false.
Proof.
  destruct (@summary_empty_or_closed (VStr (lit "Mix well")) (lit "Mix well.")
              eq_refl) as [[Hempty|Hclosed] Hstart].
  - discriminate Hempty.
  - split; [reflexivity|]. split; [exact Hclosed | exact Hstart].
Defined.

(** Four sentences are cut down to two. *)
Lemma summary_at_most_two_dots_witness :
  dots (lit "Boil water. Add pasta. Stir occasionally. Serve hot.") = 4
  /\ dots (lit "Boil water. Add pasta.") <= 2.
Proof.
  split; [reflexivity|].
  exact (@summary_at_most_two_dots
           (VStr (lit "Boil water. Add pasta. Stir occasionally. Serve hot."))
           (lit "Boil water. Add pasta.") eq_refl).
Defined.

(** The ['&'] of "a&b" is escaped. *)
Lemma encoded_query_is_url_safe_witness :
  encodeURIComponent (lit "a&b") = Ok (lit "a%26b")
  /\ (is_unreserved 37%N = true \/ 37%N = 37%N).
Proof.
  split; [reflexivity|].
  apply (@encoded_query_is_url_safe (lit "a&b") (lit "a%26b") 37%N).
  - repeat constructor.
  - reflexivity.
  - right. left. reflexivity.
Defined.

Lemma encode_total_without_surrogates_witness :
  exists e, encodeURIComponent (lit "chicken breast, rice") = Ok e.
Proof.
  exact (@encode_total_without_surrogates (lit "chicken breast, rice")
           eq_refl).
Defined.

Lemma encode_keeps_unreserved_witness :
  encodeURIComponent (lit "chicken") = Ok (lit "chicken").
Proof. exact (@encode_keeps_unreserved (lit "chicken") eq_refl). Defined.

(** The filter endpoint answers with a page that is not JSON. *)
Lemma filter_failure_fails_search_witness :
  invoke number_to_string net_not_json st_chicken = failed_state st_chicken
  /\ fetches (trace number_to_string net_not_json st_chicken)
     = [filter_url (lit "chicken")].
Proof.
  exact (@filter_failure_fails_search number_to_string net_not_json
           st_chicken (lit "chicken") eq_refl eq_refl eq_refl).
Defined.

(** A query with half of a surrogate pair. *)
Lemma unencodable_query_fails_without_request_witness :
  invoke number_to_string net_two st_lone_surrogate
  = failed_state st_lone_surrogate
  /\ fetches (trace number_to_string net_two st_lone_surrogate) = [].
Proof.
  exact (@unencodable_query_fails_without_request number_to_string net_two
           st_lone_surrogate URIError eq_refl eq_refl).
Defined.

(** The filter endpoint answers [{ meals: "none" }]. *)
Lemma non_array_meals_fails_search_witness :
  invoke number_to_string net_string_meals st_chicken
  = failed_state st_chicken
  /\ fetches (trace number_to_string net_string_meals st_chicken)
     = [filter_url (lit "chicken")].
Proof.
  apply (@non_array_meals_fails_search number_to_string net_string_meals
           st_chicken (lit "chicken")
           (VObj [(lit "meals", VStr (lit "none"))]) (VStr (lit "none"))
           eq_refl eq_refl eq_refl eq_refl eq_refl).
  intros ms H. discriminate H.
Defined.

Lemma first_request_is_filter_of_trimmed_query_witness :
  exists rest,
    fetches (trace number_to_string net_two (typed "  chicken " initial_state))
    = filter_url (lit "chicken") :: rest
    /\ forall i url, nth_error rest i = Some url -> i < 10.
Proof.
  destruct (@first_request_is_filter_of_trimmed_query number_to_string
              net_two (typed "  chicken " initial_state) (lit "chicken")
              eq_refl eq_refl) as [rest [Hf Hrest]].
  exists rest. split; [exact Hf|].
  intros i url Hnth. exact (proj1 (Hrest i url Hnth)).
Defined.

(** The same search from the mounted state and from the state with a
    message and two results. *)
Lemma search_forgets_prior_state_witness :
  invoke number_to_string net_two (typed "rice" st_error_and_results)
  = invoke number_to_string net_two (typed "rice" initial_state).
Proof.
  exact (@search_forgets_prior_state number_to_string net_two
           (typed "rice" st_error_and_results) (typed "rice" initial_state)
           eq_refl eq_refl).
Defined.

Lemma answered_search_succeeds_witness :
  exists mapped,
    length mapped = 2
    /\ invoke number_to_string net_two st_chicken =
       {| ingredients := lit "chicken"; loading := false;
          recipes := mapped; error := None |}.
Proof.
  exists (recipes st_two_results). split; [reflexivity|].
  exact (@answered_search_succeeds number_to_string net_two st_chicken
           (lit "chicken") (filter_payload two_meals) two_meals
           [lit "https://www.themealdb.com/api/json/v1/1/lookup.php?i=52772";
            lit "https://www.themealdb.com/api/json/v1/1/lookup.php?i=52773"]
           [detail_payload "52772" "Teriyaki Chicken"
              "Boil water. Add pasta. Stir occasionally. Serve hot.";
            detail_payload "52773" "Honey Chicken" "Mix well"]
           (recipes st_two_results)
           eq_refl eq_refl eq_refl eq_refl eq_refl eq_refl eq_refl).
Defined.

(** Fifteen matches with string ids: eleven requests. *)
Lemma string_ids_all_looked_up_witness :
  length (fetches (trace number_to_string net_fifteen st_chicken)) = 11.
Proof.
  exact (proj2 (@string_ids_all_looked_up number_to_string net_fifteen
                  st_chicken (lit "chicken") (filter_payload fifteen_meals)
                  fifteen_meals eq_refl eq_refl eq_refl eq_refl eq_refl)).
Defined.

(** Two matches, the second of them [null]. *)
Lemma unusable_candidate_fails_search_witness :
  invoke number_to_string net_null_candidate st_chicken
  = failed_state st_chicken.
Proof.
  exact (@unusable_candidate_fails_search number_to_string net_null_candidate
           st_chicken (lit "chicken")
           (filter_payload [candidate "52772"; VNull])
           [candidate "52772"; VNull] VNull TypeError
           eq_refl eq_refl eq_refl eq_refl
           (or_intror (or_introl eq_refl)) eq_refl).
Defined.

Lemma reachable_results_at_most_ten_witness :
  length (recipes st_error_and_results) <= 10.
Proof.
  exact (@reachable_results_at_most_ten number_to_string st_error_and_results
           st_error_and_results_reachable).
Defined.

Lemma reachable_error_shown_witness :
  error_view st_error_and_results
  = Element "Text" [] [Expr (VStr empty_input_message)].
Proof.
  exact (proj2 (@reachable_error_shown number_to_string st_error_and_results
                  st_error_and_results_reachable)).
Defined.

(** A meal with a name and nothing else: no image, the default
    category, no area, the empty summary. *)
Lemma card_of_reduced_detail_witness :
  texts (renderItem
           {| id := VUndef; name := VStr (lit "Stew"); thumbnail := VUndef;
              summary := []; strCategory := VUndef; strArea := VUndef;
              strTags := VUndef |})
  = [VStr (lit "Stew"); VStr (lit "Main Course"); VStr []].
Proof.
  destruct (@card_of_reduced_detail bare_detail
              {| id := VUndef; name := VStr (lit "Stew"); thumbnail := VUndef;
                 summary := []; strCategory := VUndef; strArea := VUndef;
                 strTags := VUndef |} eq_refl)
    as [meal [Hmeal [Htexts _]]].
  injection Hmeal as <-. exact Htexts.
Defined.

(** ** The committed state during an invocation *)

Lemma calls_app (ss1 ss2 : list step) :
  calls (ss1 ++ ss2) = calls ss1 ++ calls ss2.
Proof.
  induction ss1 as [|[ev|] ss1 IH]; simpl; rewrite ?IH; reflexivity.
Qed.

Lemma calls_map_Call (evs : list event) : calls (map Call evs) = evs.
Proof. induction evs as [|ev evs IH]; simpl; rewrite ?IH; reflexivity. Qed.

Lemma commit_calls (st : AppState) (pending evs : list event)
    (ss : list step) :
  commit st pending (map Call evs ++ ss) = commit st (pending ++ evs) ss.
Proof.
  revert pending; induction evs as [|ev evs IH]; intros pending; simpl.
  - rewrite app_nil_r. reflexivity.
  - rewrite IH, <- app_assoc. reflexivity.
Qed.

(** At an [await], everything called so far is committed. *)
Lemma commit_at_await (ss : list step) (st : AppState)
    (pending : list event) :
  commit st pending (ss ++ [Await]) = replay st (pending ++ calls ss).
Proof.
  revert st pending; induction ss as [|[ev|] ss IH]; intros st pending; simpl.
  - rewrite app_nil_r. reflexivity.
  - rewrite IH, <- app_assoc. reflexivity.
  - rewrite IH. simpl. rewrite replay_app. reflexivity.
Qed.

Lemma no_update_fetches (urls : list jsstring) :
  forallb no_update (map Call (map Fetch urls)) = true.
Proof. induction urls as [|u urls IH]; [reflexivity | exact IH]. Qed.

Lemma quiet_calls (ss : list step) :
  forallb no_update ss = true -> exists urls, calls ss = map Fetch urls.
Proof.
  induction ss as [|[ev|] ss IH]; simpl; intros H.
  - exists []. reflexivity.
  - destruct ev; try discriminate H.
    destruct (IH H) as [urls ->]. exists (url :: urls). reflexivity.
  - apply IH, H.
Qed.

Lemma commit_quiet (ss : list step) (st : AppState) (urls : list jsstring) :
  forallb no_update ss = true -> commit st (map Fetch urls) ss = st.
Proof.
  revert urls; induction ss as [|[ev|] ss IH]; intros urls H; simpl in *.
  - reflexivity.
  - destruct ev; try discriminate H.
    change (map Fetch urls ++ [Fetch url])
      with (map Fetch urls ++ map Fetch [url]).
    rewrite <- map_app. apply IH, H.
  - rewrite replay_fetches. apply (IH [] H).
Qed.

Lemma split_in_left {A : Type} (s : A) (l1 l2 pre post : list A) :
  ~ In s l2 ->
  l1 ++ l2 = pre ++ s :: post ->
  exists rest, l1 = pre ++ s :: rest.
Proof.
  intros Hno. revert pre; induction l1 as [|a l1 IH]; intros pre H.
  - exfalso. apply Hno. simpl in H. rewrite H. apply in_or_app.
    right. left. reflexivity.
  - destruct pre as [|p pre]; simpl in H; injection H as -> H.
    + exists l1. reflexivity.
    + destruct (IH pre H) as [rest ->]. exists rest. reflexivity.
Qed.

Lemma split_in_right {A : Type} (s : A) (l1 l2 pre post : list A) :
  ~ In s l1 ->
  l1 ++ l2 = pre ++ s :: post ->
  exists pre2, pre = l1 ++ pre2 /\ l2 = pre2 ++ s :: post.
Proof.
  revert pre; induction l1 as [|a l1 IH]; intros pre Hno H.
  - exists pre. split; [reflexivity | exact H].
  - destruct pre as [|p pre]; simpl in H; injection H as -> H.
    + exfalso. apply Hno. left. reflexivity.
    + destruct (IH pre) as [pre2 [-> Hl2]].
      * intros Hin. apply Hno. right. exact Hin.
      * exact H.
      * exists pre2. split; [reflexivity | exact Hl2].
Qed.

Lemma forallb_prefix {A : Type} (f : A -> bool) (l1 l2 : list A) :
  forallb f (l1 ++ l2) = true -> forallb f l1 = true.
Proof. rewrite forallb_app. intros H. apply andb_true_iff in H. apply H. Qed.

Section Commits.

Variable nts : spec_float -> jsstring.
Variable net : nat -> jsstring -> promise response.

(** The steps of the [try] block: the path of [search] with its
    [await]s.  Nothing but requests and [await]s comes between the
    filter request and the setter calls at the end. *)
Lemma search_steps_run (query : jsstring) :
  exists ss n r,
    search_steps nts net query 0 = (ss, n, r)
    /\ search nts net query 0 = (calls ss, n, r)
    /\ (ss = []
        \/ exists f quiet tail,
             ss = Call (Fetch f) :: Await :: quiet ++ map Call tail
             /\ forallb no_update quiet = true
             /\ fetches tail = []).
Proof.
  unfold search_steps, search.
  cbv beta iota zeta delta [Y_bind bind call await_ await lift fetch].
  destruct (encodeURIComponent query) as [enc|e].
  2:{ do 3 eexists. split; [reflexivity|]. split; [reflexivity|].
      left. reflexivity. }
  destruct (net 0 (filter_url enc)) as [resp|e].
  2:{ do 3 eexists. split; [reflexivity|]. split; [reflexivity|].
      right. exists (filter_url enc), [], []. repeat split. }
  destruct (json resp) as [data|e].
  2:{ do 3 eexists. split; [reflexivity|]. split; [reflexivity|].
      right. exists (filter_url enc), [Await], []. repeat split. }
  destruct (get_field data "meals") as [meals|e].
  2:{ do 3 eexists. split; [reflexivity|]. split; [reflexivity|].
      right. exists (filter_url enc), [Await], []. repeat split. }
  destruct (truthy meals) eqn:Htruthy; cbn [negb].
  2:{ do 3 eexists. split; [reflexivity|]. split; [reflexivity|].
      right. exists (filter_url enc), [Await].
      exists [SetRecipes []; SetError (Some no_recipes_message);
              SetLoading false].
      repeat split. }
  cbv beta iota zeta delta [Y_bind bind call await_ await lift fetch].
  destruct meals as [| |b|x|s|ms|fields]; cbn [slice_0_10 array_map];
    try discriminate Htruthy;
    try (do 3 eexists; split; [reflexivity|]; split; [reflexivity|];
         right; exists (filter_url enc), [Await], []; repeat split; fail).
  cbv beta iota zeta delta [lift].
  rewrite M_map_lookup.
  destruct (res_map (lookup_url nts) (js_slice ms 0 10)) as [urls|e] eqn:Hurls.
  2:{ do 3 eexists. split; [reflexivity|]. split.
      - simpl; rewrite ?app_nil_r, ?calls_app, ?calls_map_Call; simpl; rewrite ?app_nil_r; reflexivity.
      - right. exists (filter_url enc).
        exists (Await :: map Call (map Fetch (issued nts (js_slice ms 0 10)))).
        exists []. split; [|split; [|reflexivity]].
        + simpl; rewrite ?app_nil_r; reflexivity.
        + apply no_update_fetches. }
  set (fetched := map Call (map Fetch (issued nts (js_slice ms 0 10)))).
  assert (Hsplit : forall tail,
             Call (Fetch (filter_url enc)) :: Await :: Await
               :: fetched ++ Await :: map Call tail
             = Call (Fetch (filter_url enc)) :: Await
               :: (Await :: fetched ++ [Await]) ++ map Call tail).
  { intros tail. simpl. rewrite <- app_assoc. reflexivity. }
  assert (Hquiet : forallb no_update (Await :: fetched ++ [Await]) = true).
  { simpl. rewrite forallb_app. unfold fetched. rewrite no_update_fetches.
    reflexivity. }
  destruct (Promise_all (settle net 1 urls)) as [details|e].
  2:{ do 3 eexists. split; [reflexivity|]. split.
      - simpl; unfold fetched; rewrite ?app_nil_r, ?calls_app, ?calls_map_Call; simpl; rewrite ?app_nil_r; reflexivity.
      - right. exists (filter_url enc), (Await :: fetched ++ [Await]), [].
        split; [|split; [exact Hquiet | reflexivity]].
        simpl; rewrite ?app_nil_r; reflexivity. }
  destruct (res_map reduce details) as [mapped|e].
  2:{ do 3 eexists. split; [reflexivity|]. split.
      - simpl; unfold fetched; rewrite ?app_nil_r, ?calls_app, ?calls_map_Call; simpl; rewrite ?app_nil_r; reflexivity.
      - right. exists (filter_url enc), (Await :: fetched ++ [Await]), [].
        split; [|split; [exact Hquiet | reflexivity]].
        simpl; rewrite ?app_nil_r; reflexivity. }
  do 3 eexists. split; [reflexivity|]. split.
  - simpl; unfold fetched; rewrite ?app_nil_r, ?calls_app, ?calls_map_Call; simpl; rewrite ?app_nil_r; reflexivity.
  - right. exists (filter_url enc), (Await :: fetched ++ [Await]).
    exists [SetRecipes mapped].
    split; [|split; [exact Hquiet | reflexivity]].
    simpl; rewrite ?app_nil_r; exact (Hsplit [SetRecipes mapped]).
Qed.

Lemma steps_blank (st : AppState) :
  forallb is_space (ingredients st) = true ->
  steps nts net st =
  [Call (SetError None); Call (SetError (Some empty_input_message))].
Proof.
  intros Hb. unfold steps, findRecipes_steps.
  rewrite trim_truthy, Hb. reflexivity.
Qed.

(** The steps are the calls of the trace, with the [await]s between. *)
Lemma calls_steps (st : AppState) :
  calls (steps nts net st) = trace nts net st.
Proof.
  unfold steps, trace, findRecipes_steps, findRecipes.
  rewrite trim_truthy. destruct (forallb is_space (ingredients st));
    [reflexivity|].
  destruct (search_steps_run (trim (ingredients st)))
    as [ss [n [r [Hrun [Hsearch _]]]]].
  cbv beta iota zeta delta [Y_bind bind call emit Y_try_catch_finally
                              try_catch_finally].
  rewrite Hrun, Hsearch.
  destruct r as [u|e]; simpl; rewrite ?calls_app; simpl;
    rewrite ?app_nil_r; reflexivity.
Qed.

Lemma steps_searching (st : AppState) :
  forallb is_space (ingredients st) = false ->
  (exists evs, steps nts net st = map Call evs /\ fetches evs = [])
  \/ exists f quiet rest,
       steps nts net st =
         (map Call searching_prefix ++ Call (Fetch f) :: Await :: quiet)
         ++ map Call rest
       /\ forallb no_update quiet = true
       /\ fetches rest = [].
Proof.
  intros Hb. unfold steps, findRecipes_steps.
  rewrite trim_truthy, Hb.
  destruct (search_steps_run (trim (ingredients st)))
    as [ss [n [r [Hrun [_ Hshape]]]]].
  cbv beta iota zeta delta [Y_bind call emit Y_try_catch_finally].
  rewrite Hrun.
  destruct Hshape as [->|[f [quiet [tail [-> [Hquiet Htail]]]]]].
  - left. exists (searching_prefix ++ catch_events r ++ [SetLoading false]).
    split; [destruct r as [u|e]; reflexivity|].
    destruct r as [u|e]; reflexivity.
  - right. exists f, quiet, (tail ++ catch_events r ++ [SetLoading false]).
    split; [|split; [exact Hquiet|]].
    + destruct r as [u|e]; simpl; rewrite ?map_app, <- ?app_assoc;
        reflexivity.
    + rewrite !fetches_app, Htail. destruct r as [u|e]; reflexivity.
Qed.

Lemma not_in_map_Call (s : step) (evs : list event) :
  (forall ev, s <> Call ev) -> ~ In s (map Call evs).
Proof.
  intros Hs Hin. apply in_map_iff in Hin. destruct Hin as [ev [Hev _]].
  apply (Hs ev). symmetry. exact Hev.
Qed.

Lemma fetch_not_in_calls (url : jsstring) (evs : list event) :
  fetches evs = [] -> ~ In (Call (Fetch url)) (map Call evs).
Proof.
  intros Hf Hin. apply in_map_iff in Hin. destruct Hin as [ev [Hev Hin]].
  injection Hev as ->. apply in_split in Hin.
  destruct Hin as [l1 [l2 ->]]. rewrite fetches_app in Hf. simpl in Hf.
  destruct (fetches l1); discriminate.
Qed.

(** C8 (amended).  Before any request is issued, the calls that clear
    [error] and [results] and set [loading] have been made.  When a
    request is issued after another one (so every lookup), React has
    committed them: the committed state is the searching state, with no
    message and no result of an earlier search. *)
Theorem lookups_after_clear (st : AppState) (pre post : list step)
    (url : jsstring) :
  steps nts net st = pre ++ Call (Fetch url) :: post ->
  (error (replay st (calls pre)) = None
   /\ recipes (replay st (calls pre)) = []
   /\ loading (replay st (calls pre)) = true)
  /\ (fetches (calls pre) <> [] -> committed st pre = searching_state st).
Proof.
  intros Hsteps. split.
  - assert (Htrace : trace nts net st
                     = calls pre ++ Fetch url :: calls post).
    { rewrite <- calls_steps, Hsteps, calls_app. reflexivity. }
    eapply clearing_calls_precede_fetch; exact Htrace.
  - intros Hearlier.
    destruct (forallb is_space (ingredients st)) eqn:Hb.
    { rewrite (steps_blank st Hb) in Hsteps.
      destruct pre as [|s1 [|s2 [|s3 pre]]]; discriminate Hsteps. }
    destruct (steps_searching st Hb)
      as [[evs [Hevs Hno]]|[f [quiet [rest [Hshape [Hquiet Hrest]]]]]].
    { exfalso. apply (fetch_not_in_calls url evs Hno).
      rewrite <- Hevs, Hsteps. apply in_or_app. right. left. reflexivity. }
    rewrite Hshape in Hsteps.
    apply split_in_left in Hsteps; [|apply fetch_not_in_calls, Hrest].
    destruct Hsteps as [after Hleft].
    apply split_in_right in Hleft.
    2:{ intros [H|[H|[H|[]]]]; discriminate H. }
    destruct Hleft as [pre2 [-> Hq]].
    rewrite calls_app, calls_map_Call, fetches_app in Hearlier.
    destruct pre2 as [|s1 pre2]; [exfalso; apply Hearlier; reflexivity|].
    injection Hq as <- Hq.
    destruct pre2 as [|s2 pre2]; [discriminate Hq|].
    injection Hq as <- Hq.
    unfold committed. rewrite commit_calls. simpl.
    rewrite Hq in Hquiet. apply forallb_prefix in Hquiet.
    apply (commit_quiet pre2 (searching_state st) [] Hquiet).
Qed.

(** X1.  A search on a non-blank input keeps the component in the
    searching state while it waits: at each of its [await]s the
    committed state has [loading] true, no message and no result, and a
    request that does not settle leaves it there.  Once the requests it
    waits for have settled, it ends with the input text as it was,
    [loading] false (no loading indicator), and one of: no message and
    at most ten results; the no-recipes message and no result; the
    fetch-error message and no result. *)
Theorem search_waits_then_ends (st : AppState) :
  forallb is_space (ingredients st) = false ->
  (forall pre post,
     steps nts net st = pre ++ Await :: post ->
     committed st (pre ++ [Await]) = searching_state st)
  /\ exists rs e,
       invoke nts net st =
         {| ingredients := ingredients st; loading := false;
            recipes := rs; error := e |}
       /\ loading_view (invoke nts net st) = Nothing
       /\ ((e = None /\ length rs <= 10)
           \/ (e = Some no_recipes_message /\ rs = [])
           \/ (e = Some fetch_error_message /\ rs = [])).
Proof.
  intros Hb. split.
  - intros pre post Hsteps.
    destruct (steps_searching st Hb)
      as [[evs [Hevs _]]|[f [quiet [rest [Hshape [Hquiet _]]]]]].
    { exfalso. apply (@not_in_map_Call Await evs); [discriminate|].
      rewrite <- Hevs, Hsteps. apply in_or_app. right. left. reflexivity. }
    rewrite Hshape in Hsteps.
    apply split_in_left in Hsteps;
      [|apply not_in_map_Call; discriminate].
    destruct Hsteps as [after Hleft].
    apply split_in_right in Hleft;
      [|apply not_in_map_Call; discriminate].
    destruct Hleft as [pre2 [-> Hq]].
    assert (Hpre2 : forallb no_update pre2 = true).
    { apply (forallb_prefix no_update pre2 (Await :: after)).
      rewrite <- Hq. exact Hquiet. }
    destruct (quiet_calls pre2 Hpre2) as [urls Hurls].
    unfold committed. rewrite commit_at_await.
    rewrite calls_app, calls_map_Call, Hurls. simpl app.
    apply replay_searching.
  - destruct (trace_searching nts net st Hb) as [t [r [Hp Ht]]].
    destruct r as [[]|e].
    + destruct (completed_run st Hp Ht) as [Hinv|[mapped [Hlen Hinv]]];
        rewrite Hinv; do 2 eexists; (split; [reflexivity|]);
        (split; [reflexivity|]); auto.
    + destruct (failed_run st Hp Ht) as [Hinv _].
      rewrite Hinv; do 2 eexists; (split; [reflexivity|]);
        (split; [reflexivity|]); auto.
Qed.

End Commits.

(** ** The committed state at the samples *)

(** C8, as stated, fails: the filter request of a search started with a
    message and two results on the screen is issued in the stretch that
    calls the setters, before React commits them; the committed state
    still holds the message and the two results. *)
Lemma filter_request_before_commit :
  nth_error run_rice 3 = Some (Call (Fetch (filter_url (lit "rice"))))
  /\ In (Call (SetLoading true)) (firstn 3 run_rice)
  /\ error (committed st_rice (firstn 3 run_rice))
     = Some empty_input_message
  /\ length (recipes (committed st_rice (firstn 3 run_rice))) = 2.
Proof.
  split; [reflexivity|]. split; [right; left; reflexivity|].
  split; reflexivity.
Qed.

(** The same search, at its first lookup: the message and the results
    are gone from the committed state. *)
Lemma lookups_after_clear_witness :
  nth_error run_rice 6
  = Some (Call (Fetch (lit "https://www.themealdb.com/api/json/v1/1/lookup.php?i=52772")))
  /\ committed st_rice (firstn 6 run_rice) = searching_state st_rice
  /\ error (committed st_rice (firstn 6 run_rice)) = None
  /\ recipes (committed st_rice (firstn 6 run_rice)) = [].
Proof.
  destruct (@lookups_after_clear number_to_string net_two st_rice
              (firstn 6 run_rice) (skipn 7 run_rice)
              (lit "https://www.themealdb.com/api/json/v1/1/lookup.php?i=52772")
              eq_refl)
    as [_ Hcommitted].
  assert (Hearlier : fetches (calls (firstn 6 run_rice)) <> [])
    by discriminate.
  split; [reflexivity|].
  split; [exact (Hcommitted Hearlier)|].
  rewrite (Hcommitted Hearlier). split; reflexivity.
Defined.

(** Without a connection: searching while the filter request is
    awaited, failed once it is rejected. *)
Lemma search_waits_then_ends_witness :
  nth_error run_down 4 = Some Await
  /\ committed st_chicken (firstn 4 run_down ++ [Await])
     = searching_state st_chicken
  /\ exists rs e,
       invoke number_to_string net_down st_chicken =
         {| ingredients := lit "chicken"; loading := false;
            recipes := rs; error := e |}.
Proof.
  destruct (@search_waits_then_ends number_to_string net_down st_chicken
              eq_refl) as [Hwait [rs [e [Hinv _]]]].
  split; [reflexivity|].
  split; [exact (Hwait (firstn 4 run_down) (skipn 5 run_down) eq_refl)|].
  exists rs, e. exact Hinv.
Defined.
